(** * fcmd: file manipulation commands for Go

    A shallow embedding of [fcmd.go] (package [fcmd]) and the properties of
    its existence check, its hidden-name predicate, its directory lister
    [Ls] and its recursive explorer [Explore].

    Go strings are byte sequences: they are [string] here (a list of
    [ascii]).  Slices are lists; [append(s, x)] is [s ++ [x]] and the nil
    slice is [[]].  The file system is read through the two primitives the
    package calls, [os.Stat] and [ioutil.ReadDir]: each function below takes
    the state of the file system as the answers of the primitive it calls.
    [Explore] is recursive on the directory structure it finds, which no
    type bounds, so its model carries the number of stack frames it may use
    and returns [None] when they are exhausted. *)

From Stdlib Require Import Strings.String Strings.Ascii Lists.List Bool.Bool.
From Stdlib Require Import Arith.PeanoNat micromega.Lia Sorting.Permutation.
Import ListNotations.

Local Open Scope string_scope.
Local Open Scope list_scope.

(** ** The parts of Go's standard library the package imports *)

(** Package [strings]. *)
Module strings.

(** [func HasPrefix(s, prefix string) bool]:
    [len(s) >= len(prefix) && s[:len(prefix)] == prefix]. *)
Definition HasPrefix (s prefix : string) : bool :=
  Nat.leb (String.length prefix) (String.length s)
  && String.eqb (substring 0 (String.length prefix) s) prefix.

End strings.

(** Package [os]: errors and directory entries. *)
Module os.

(** The error of a failed system call, by its errno.  [nil] is [None] in an
    [option error]. *)
Inductive error : Set :=
| ENOENT        (* no such file or directory *)
| ENOTDIR       (* a component of the path is not a directory *)
| EACCES        (* permission denied *)
| ELOOP         (* too many levels of symbolic links *)
| ENAMETOOLONG
| EIO.

(** What the package reads of an [os.FileInfo]: [Name()] and [IsDir()]. *)
Record FileInfo : Set := { Name : string; IsDir : bool }.

(** A Go result pair [(value, err)], of which exactly one is set. *)
Inductive result (A : Type) : Type :=
| Ok (value : A)
| Err (err : error).
Arguments Ok {A} value.
Arguments Err {A} err.

(** The [err] of a result pair. *)
Definition err_of {A : Type} (r : result A) : option error :=
  match r with
  | Ok _ => None
  | Err e => Some e
  end.

(** [func IsNotExist(err error) bool]: the error reports that a file or
    directory does not exist. *)
Definition IsNotExist (err : option error) : bool :=
  match err with
  | Some ENOENT => true
  | _ => false
  end.

End os.

(** Package [path]: lexical path joining. *)
Module path.

Definition slash : ascii := "/"%char.

(** The elements of a path between its slashes. *)
Fixpoint split_acc (p elem : string) : list string :=
  match p with
  | EmptyString => [elem]
  | String c rest =>
      if Ascii.eqb c slash then elem :: split_acc rest ""
      else split_acc rest (String.append elem (String c ""))
  end.

Definition split (p : string) : list string := split_acc p "".

(** One element processed by [Clean]; [out] holds the kept elements, last
    first.  An empty element and [.] are dropped; [..] removes the element
    before it, is dropped at the root, and is kept at the start of a path
    that is not rooted. *)
Definition clean_elem (rooted : bool) (out : list string) (elem : string)
  : list string :=
  if (elem =? "") || (elem =? ".") then out
  else if elem =? ".." then
    match out with
    | [] => if rooted then [] else [".."]
    | top :: below => if top =? ".." then ".." :: out else below
    end
  else elem :: out.

(** [func Clean(path string) string]: the shortest path name equivalent to
    [path] by purely lexical processing. *)
Definition Clean (p : string) : string :=
  match p with
  | EmptyString => "."
  | String c _ =>
      let rooted := Ascii.eqb c slash in
      let out := rev (fold_left (clean_elem rooted) (split p) []) in
      if rooted then String.append "/" (String.concat "/" out)
      else match out with
           | [] => "."
           | _ => String.concat "/" out
           end
  end.

(** [func Join(elem ...string) string] at two elements: empty elements are
    ignored, the rest joined by a slash and cleaned; the join of empty
    elements only is the empty string. *)
Definition Join (a b : string) : string :=
  match a, b with
  | EmptyString, EmptyString => ""
  | EmptyString, _ => Clean b
  | _, EmptyString => Clean a
  | _, _ => Clean (String.append a (String.append "/" b))
  end.

End path.

(** ** The package *)

(** *** Existence check (fcmd.go, lines 39-43) *)

Section Existence.

(** The file system as [os.Stat] reads it. *)
Variable Stat : string -> os.result os.FileInfo.

(** [func IsExist(target string) bool] *)
Definition IsExist (target : string) : bool :=
  let err := os.err_of (Stat target) in
  os.IsNotExist err.

(** [func IsDir(target string) bool] *)
Definition IsDir (target : string) : bool :=
  match Stat target with
  | os.Err _ => false
  | os.Ok stat => os.IsDir stat
  end.

End Existence.

(** *** Hidden-name predicate (fcmd.go, lines 55-58) *)

(** [func IsHidden(target string) bool] *)
Definition IsHidden (target : string) : bool :=
  strings.HasPrefix target ".".

(** *** Directory lister and tree explorer (fcmd.go, lines 60-102) *)

(** [for _, x := range src { dst = append(dst, x) }] *)
Fixpoint append_each (dst src : list string) : list string :=
  match src with
  | [] => dst
  | x :: src' => append_each (dst ++ [x]) src'
  end.

(** The body of [Ls]'s loop over the entries read, from the current values
    of the named results [dirs] and [files]. *)
Fixpoint Ls_range (directory : list os.FileInfo) (dirs files : list string)
  : list string * list string :=
  match directory with
  | [] => (dirs, files)
  | element :: rest =>
      if IsHidden (os.Name element) then Ls_range rest dirs files
      else if os.IsDir element
           then Ls_range rest (dirs ++ [os.Name element]) files
           else Ls_range rest dirs (files ++ [os.Name element])
  end.

(** The directory entry of a file (any entry that is not a directory), and
    that of a directory. *)
Definition file (name : string) : os.FileInfo :=
  {| os.Name := name; os.IsDir := false |}.

Definition dir (name : string) : os.FileInfo :=
  {| os.Name := name; os.IsDir := true |}.

(** The entries [Ls] lists as directories, and those it lists as files. *)
Definition listed_dir (element : os.FileInfo) : bool :=
  negb (IsHidden (os.Name element)) && os.IsDir element.

Definition listed_file (element : os.FileInfo) : bool :=
  negb (IsHidden (os.Name element)) && negb (os.IsDir element).

(** The loop of [Explore] over [dirList] (lines 90-100); [explore] is the
    recursive call, [None] when the call stack is exhausted. *)
Fixpoint Explore_range
  (explore : string -> option (list string * list string))
  (root : string) (dirList : list string) (dirs files : list string)
  : option (list string * list string) :=
  match dirList with
  | [] => Some (dirs, files)
  | dir :: rest =>
      let subRoot := path.Join root dir in
      let dirs := dirs ++ [subRoot] in
      match explore subRoot with
      | None => None
      | Some (subDirs, subFiles) =>
          let files := append_each files subFiles in
          let dirs := append_each dirs subDirs in
          Explore_range explore root rest dirs files
      end
  end.

(** What one turn of that loop appends for the subdirectory [dir], when its
    recursive call returns: the subdirectory's path and then the directories
    found below it; the files found below it. *)
Definition returned
  (explore : string -> option (list string * list string))
  (root dir : string) : bool :=
  match explore (path.Join root dir) with
  | Some _ => true
  | None => false
  end.

Definition emitted_dirs
  (explore : string -> option (list string * list string))
  (root dir : string) : list string :=
  path.Join root dir ::
  match explore (path.Join root dir) with
  | Some (subDirs, _) => subDirs
  | None => []
  end.

Definition emitted_files
  (explore : string -> option (list string * list string))
  (root dir : string) : list string :=
  match explore (path.Join root dir) with
  | Some (_, subFiles) => subFiles
  | None => []
  end.

Section Explorer.

(** The file system as [ioutil.ReadDir] reads it. *)
Variable ReadDir : string -> os.result (list os.FileInfo).

(** [func Ls(target string) (dirs, files []string)] *)
Definition Ls (target : string) : list string * list string :=
  match ReadDir target with
  | os.Err _ => ([], [])
  | os.Ok directory => Ls_range directory [] []
  end.

(** [func Explore(root string) (dirs, files []string)], on a call stack of
    [frames] frames. *)
Fixpoint Explore (frames : nat) (root : string)
  : option (list string * list string) :=
  match frames with
  | 0 => None
  | S frames' =>
      let '(dirList, fileList) := Ls root in
      let files := append_each [] fileList in
      Explore_range (Explore frames') root dirList [] files
  end.

End Explorer.

(** Two reads of a directory that differ at most in the order of the
    entries: both fail, or both yield the same entries. *)
Definition same_entries (r1 r2 : os.result (list os.FileInfo)) : Prop :=
  match r1, r2 with
  | os.Ok directory1, os.Ok directory2 => Permutation directory1 directory2
  | os.Err _, os.Err _ => True
  | _, _ => False
  end.

(** ** Directory trees *)

(** A finite directory tree: what is found at a path is a directory with
    its entries, or cannot be read as one (the error says why: it does not
    exist, is not a directory, may not be read).  An entry that is not a
    directory (a plain file, a symbolic link, a device) is a [File]. *)
Inductive tree : Type :=
| Unreadable (err : os.error)
| Directory (entries : list entry)
with entry : Type :=
| File (name : string)
| Subdir (name : string) (content : tree).

(** The directory entry [ioutil.ReadDir] reports for an entry. *)
Definition info (e : entry) : os.FileInfo :=
  match e with
  | File name => file name
  | Subdir name _ => dir name
  end.

(** The levels of directories [Explore] walks in a tree, the root counted:
    one more than the levels of the deepest subdirectory that is not
    hidden. *)
Fixpoint levels (t : tree) : nat :=
  match t with
  | Unreadable _ => 1
  | Directory entries =>
      S ((fix deepest (es : list entry) : nat :=
            match es with
            | [] => 0
            | File _ :: es' => deepest es'
            | Subdir name content :: es' =>
                if IsHidden name then deepest es'
                else Nat.max (levels content) (deepest es')
            end) entries)
  end.

(** [levels] of the deepest subdirectory that is not hidden among the
    entries of a directory; 0 when there is none. *)
Fixpoint deepest (es : list entry) : nat :=
  match es with
  | [] => 0
  | File _ :: es' => deepest es'
  | Subdir name content :: es' =>
      if IsHidden name then deepest es'
      else Nat.max (levels content) (deepest es')
  end.

Section Mounted.

Variable ReadDir : string -> os.result (list os.FileInfo).

(** The file system holds the tree [t] at the path [root]: reading [root]
    yields the entries of [t] in their order, or fails as [t] says, and each
    subdirectory is held at the path joined from [root] and its name. *)
Fixpoint mounted (t : tree) (root : string) {struct t} : Prop :=
  match t with
  | Unreadable err => ReadDir root = os.Err err
  | Directory entries =>
      ReadDir root = os.Ok (map info entries) /\
      (fix each (es : list entry) : Prop :=
         match es with
         | [] => True
         | File _ :: es' => each es'
         | Subdir name content :: es' =>
             mounted content (path.Join root name) /\ each es'
         end) entries
  end.

(** [mounted] over the entries of the directory at [root]. *)
Fixpoint mounted_each (root : string) (es : list entry) : Prop :=
  match es with
  | [] => True
  | File _ :: es' => mounted_each root es'
  | Subdir name content :: es' =>
      mounted content (path.Join root name) /\ mounted_each root es'
  end.

End Mounted.

(** ** Whole trees *)

(** A directory tree with all that it holds: a directory has its entries
    whether or not it can be read.  [failure] is the error that reading the
    directory gives, when it gives one (it may not be read, or the root does
    not exist or is no directory). *)
Inductive whole : Type :=
| Whole (failure : option os.error) (entries : list item)
with item : Type :=
| Plain (name : string)
| Sub (name : string) (content : whole).

Definition items (w : whole) : list item :=
  match w with
  | Whole _ entries => entries
  end.

Definition item_info (i : item) : os.FileInfo :=
  match i with
  | Plain name => file name
  | Sub name _ => dir name
  end.

(** What reading shows of a whole tree: a directory that cannot be read
    shows none of its entries. *)
Fixpoint seen (w : whole) : tree :=
  match w with
  | Whole (Some err) _ => Unreadable err
  | Whole None entries =>
      Directory
        ((fix each (l : list item) : list entry :=
            match l with
            | [] => []
            | Plain name :: l' => File name :: each l'
            | Sub name content :: l' => Subdir name (seen content) :: each l'
            end) entries)
  end.

Fixpoint seen_each (l : list item) : list entry :=
  match l with
  | [] => []
  | Plain name :: l' => File name :: seen_each l'
  | Sub name content :: l' => Subdir name (seen content) :: seen_each l'
  end.

(** The depth of a whole tree: its levels of directories, the root counted,
    whether hidden or not and whether they can be read or not. *)
Fixpoint depth (w : whole) : nat :=
  match w with
  | Whole _ entries =>
      S ((fix each (l : list item) : nat :=
            match l with
            | [] => 0
            | Plain _ :: l' => each l'
            | Sub _ content :: l' => Nat.max (depth content) (each l')
            end) entries)
  end.

Fixpoint depth_each (l : list item) : nat :=
  match l with
  | [] => 0
  | Plain _ :: l' => depth_each l'
  | Sub _ content :: l' => Nat.max (depth content) (depth_each l')
  end.

(** Every directory of the tree can be read and none is hidden. *)
Fixpoint all_walked (w : whole) : bool :=
  match w with
  | Whole (Some _) _ => false
  | Whole None entries =>
      (fix each (l : list item) : bool :=
         match l with
         | [] => true
         | Plain _ :: l' => each l'
         | Sub name content :: l' =>
             negb (IsHidden name) && all_walked content && each l'
         end) entries
  end.

Fixpoint all_walked_each (l : list item) : bool :=
  match l with
  | [] => true
  | Plain _ :: l' => all_walked_each l'
  | Sub name content :: l' =>
      negb (IsHidden name) && all_walked content && all_walked_each l'
  end.

Section Held.

Variable ReadDir : string -> os.result (list os.FileInfo).

(** The file system holds the whole tree [w] at the path [root]: reading
    [root] yields the entries of [w] in their order, or fails as [w] says,
    and each subdirectory, hidden or not and below a directory that can be
    read or not, is held at the path joined from [root] and its name. *)
Fixpoint held (w : whole) (root : string) {struct w} : Prop :=
  match w with
  | Whole failure entries =>
      ReadDir root = match failure with
                     | Some err => os.Err err
                     | None => os.Ok (map item_info entries)
                     end
      /\ (fix each (l : list item) : Prop :=
            match l with
            | [] => True
            | Plain _ :: l' => each l'
            | Sub name content :: l' =>
                held content (path.Join root name) /\ each l'
            end) entries
  end.

Fixpoint held_each (root : string) (l : list item) : Prop :=
  match l with
  | [] => True
  | Plain _ :: l' => held_each root l'
  | Sub name content :: l' =>
      held content (path.Join root name) /\ held_each root l'
  end.

End Held.

(** ** File systems used as examples *)

(** A file system given by the directories it holds, each with the entries
    [ioutil.ReadDir] yields for it; any other path does not exist. *)
Fixpoint table (dirs : list (string * list os.FileInfo)) (target : string)
  : os.result (list os.FileInfo) :=
  match dirs with
  | [] => os.Err os.ENOENT
  | (p, entries) :: dirs' =>
      if p =? target then os.Ok entries else table dirs' target
  end.

(** The tree of the specification's example, held at [root]: subdirectories
    [a/] and [a/b/], files [a/f1] and [a/b/f2], and a hidden file
    [a/.hidden]. *)
Definition example_tree : tree :=
  Directory
    [Subdir "a"
       (Directory [File ".hidden"; Subdir "b" (Directory [File "f2"]); File "f1"])].

Definition example_fs (root : string) : string -> os.result (list os.FileInfo) :=
  table
    [(root, [dir "a"]);
     (path.Join root "a", [file ".hidden"; dir "b"; file "f1"]);
     (path.Join (path.Join root "a") "b", [file "f2"])].

(** A directory without hidden entries. *)
Definition plain_fs : string -> os.result (list os.FileInfo) :=
  table
    [(".", [dir "bin"; file "go.mod"; file "main.go"; dir "pkg"]);
     ("bin", []);
     ("pkg", [])].

(** A working copy: a hidden directory [.git/] with files and a
    subdirectory inside it, beside a directory [src/] and a file. *)
Definition repository_tree : tree :=
  Directory
    [Subdir ".git"
       (Directory
          [File "HEAD"; File "config"; Subdir "objects" (Directory [File "pack"])]);
     File "README";
     Subdir "src" (Directory [File "main.go"])].

Definition repository_fs : string -> os.result (list os.FileInfo) :=
  table
    [(".", [dir ".git"; file "README"; dir "src"]);
     (".git", [file "HEAD"; file "config"; dir "objects"]);
     (".git/objects", [file "pack"]);
     ("src", [file "main.go"])].

Definition example_whole : whole :=
  Whole None
    [Sub "a"
       (Whole None
          [Plain ".hidden"; Sub "b" (Whole None [Plain "f2"]); Plain "f1"])].

Definition repository_whole : whole :=
  Whole None
    [Sub ".git"
       (Whole None
          [Plain "HEAD"; Plain "config";
           Sub "objects" (Whole None [Plain "pack"])]);
     Plain "README";
     Sub "src" (Whole None [Plain "main.go"])].

(** A directory [locked/] that may be searched but not read, with
    directories [locked/inner/] and [locked/inner/deep/] inside it; nothing
    is hidden. *)
Definition locked_whole : whole :=
  Whole None
    [Sub "locked"
       (Whole (Some os.EACCES)
          [Sub "inner" (Whole None [Sub "deep" (Whole None [])])])].

Definition locked_fs (target : string) : os.result (list os.FileInfo) :=
  if target =? "locked" then os.Err os.EACCES
  else table
         [(".", [dir "locked"]);
          ("locked/inner", [dir "deep"]);
          ("locked/inner/deep", [])] target.

(** A root through a symbolic link: [link] leads to a directory elsewhere,
    whose parent [link/..] holds [dir/] with a file [y] and a file [k];
    the working directory has a directory [dir/] of its own, with a file
    [z]. *)
Definition linked_fs : string -> os.result (list os.FileInfo) :=
  table
    [("link/..", [dir "dir"; file "k"]);
     ("link/../dir", [file "y"]);
     (".", [dir "dir"; file "link"]);
     ("dir", [file "z"])].

(** Two sibling directories, the first with a subdirectory of its own. *)
Definition siblings_fs : string -> os.result (list os.FileInfo) :=
  table
    [(".", [dir "a"; dir "c"; file "f0"]);
     ("a", [dir "b"; file "f1"]);
     ("a/b", [file "f2"]);
     ("c", [file "f3"])].

(** Two directories that each hold a file of the same name. *)
Definition twins_fs : string -> os.result (list os.FileInfo) :=
  table
    [(".", [dir "a"; dir "b"]);
     ("a", [file "f"]);
     ("b", [file "f"])].

(** [twins_fs] with the entries of its root read in the other order. *)
Definition twins_fs_reordered : string -> os.result (list os.FileInfo) :=
  table
    [(".", [dir "b"; dir "a"]);
     ("a", [file "f"]);
     ("b", [file "f"])].

(** A file system for [os.Stat]: one file, one directory that may not be
    searched, nothing else. *)
Definition stat_fs (target : string) : os.result os.FileInfo :=
  if target =? "notes.txt" then os.Ok (file "notes.txt")
  else if target =? "locked/secret" then os.Err os.EACCES
  else os.Err os.ENOENT.

(** ** The listing of a tree *)

(** The names [Ls] returns for the entries of a directory of a tree: its
    subdirectories that are not hidden, and its files that are not hidden,
    each in the order of the entries. *)
Fixpoint listed_subdirs (es : list entry) : list string :=
  match es with
  | [] => []
  | File _ :: es' => listed_subdirs es'
  | Subdir name _ :: es' =>
      if IsHidden name then listed_subdirs es' else name :: listed_subdirs es'
  end.

Fixpoint own_files (es : list entry) : list string :=
  match es with
  | [] => []
  | File name :: es' =>
      if IsHidden name then own_files es' else name :: own_files es'
  | Subdir _ _ :: es' => own_files es'
  end.

(** The directories of a tree held at [root] in pre-order, hidden ones and
    what is below them left out: each subdirectory's joined path, then the
    directories below it, then the next subdirectory. *)
Fixpoint walk_dirs (t : tree) (root : string) {struct t} : list string :=
  match t with
  | Unreadable _ => []
  | Directory entries =>
      (fix each (es : list entry) : list string :=
         match es with
         | [] => []
         | File _ :: es' => each es'
         | Subdir name content :: es' =>
             if IsHidden name then each es'
             else (path.Join root name
                   :: walk_dirs content (path.Join root name)) ++ each es'
         end) entries
  end.

Fixpoint walk_dirs_each (root : string) (es : list entry) : list string :=
  match es with
  | [] => []
  | File _ :: es' => walk_dirs_each root es'
  | Subdir name content :: es' =>
      if IsHidden name then walk_dirs_each root es'
      else (path.Join root name :: walk_dirs content (path.Join root name))
           ++ walk_dirs_each root es'
  end.

(** The names of the files of a tree in pre-order, hidden ones and what is
    below hidden directories left out: the directory's own files, then the
    files below each subdirectory. *)
Fixpoint walk_files (t : tree) : list string :=
  match t with
  | Unreadable _ => []
  | Directory entries =>
      own_files entries
      ++ (fix below (es : list entry) : list string :=
            match es with
            | [] => []
            | File _ :: es' => below es'
            | Subdir name content :: es' =>
                if IsHidden name then below es'
                else walk_files content ++ below es'
            end) entries
  end.

Fixpoint files_below (es : list entry) : list string :=
  match es with
  | [] => []
  | File _ :: es' => files_below es'
  | Subdir name content :: es' =>
      if IsHidden name then files_below es'
      else walk_files content ++ files_below es'
  end.

(** ** Commands that change the file system (fcmd.go, lines 104-144) *)

(** [path.Split] cuts a path after its last slash; the index of that slash
    is [bytealg.LastIndexByteString], here [None] for Go's [-1]. *)
Fixpoint LastIndexByte (s : string) (c : ascii) : option nat :=
  match s with
  | EmptyString => None
  | String b rest =>
      match LastIndexByte rest c with
      | Some i => Some (S i)
      | None => if Ascii.eqb b c then Some 0 else None
      end
  end.

(** [func Split(path string) (dir, file string)]:
    [i := LastIndexByteString(path, '/'); return path[:i+1], path[i+1:]]. *)
Definition Split (p : string) : string * string :=
  let cut := match LastIndexByte p path.slash with
             | Some i => S i
             | None => 0
             end in
  (substring 0 cut p, substring cut (String.length p - cut) p).

(** An [os.FileMode], and an open [*os.File]. *)
Definition FileMode : Set := nat.
Definition fd : Set := nat.

(** The calls of the standard library that [Cp] and [WriteFile] make, each
    with the type of what it returns.  [io.Copy] returns the number of bytes
    written and an error. *)
Inductive call : Type -> Type :=
| os_Open (name : string) : call (os.result fd)
| os_MkdirAll (dir : string) (perm : FileMode) : call (option os.error)
| os_Create (name : string) : call (os.result fd)
| io_Copy (dst src : fd) : call (nat * option os.error)
| File_Close (f : fd) : call (option os.error)
| ioutil_WriteFile (filename : string) (data : list Byte.byte)
    (perm : FileMode) : call (option os.error).

(** A command: it returns, or makes a call and goes on with the answer. *)
Inductive io (A : Type) : Type :=
| Return (a : A)
| Do {R : Type} (c : call R) (k : R -> io A).
Arguments Return {A} a.
Arguments Do {A R} c k.

Fixpoint bind {A B : Type} (p : io A) (k : A -> io B) : io B :=
  match p with
  | Return a => k a
  | Do c k' => Do c (fun r => bind (k' r) k)
  end.

(** [defer cleanup; body]: the deferred call runs when [body] has returned,
    what it returns is dropped, and the result of [body] stands. *)
Definition deferring {A R : Type} (cleanup : call R) (body : io A) : io A :=
  bind body (fun a => Do cleanup (fun _ => Return a)).

Declare Scope io_scope.
Delimit Scope io_scope with io.
Notation "x <- c ;; k" := (Do c (fun x => k))
  (at level 61, c at next level, right associativity) : io_scope.

Section Commands.

(** The package variable [DefaultPerm], [0750] unless it was assigned. *)
Variable DefaultPerm : FileMode.

(** [func Cp(source, target string) error] *)
Definition Cp (source target : string) : io (option os.error) :=
  (opened <- os_Open source ;;
   match opened with
   | os.Err err => Return (Some err)
   | os.Ok sourceFile =>
       deferring (File_Close sourceFile)
         (let '(dir, _) := Split target in
          err <- os_MkdirAll dir DefaultPerm ;;
          match err with
          | Some _ => Return err
          | None =>
              created <- os_Create target ;;
              match created with
              | os.Err err => Return (Some err)
              | os.Ok targetFile =>
                  deferring (File_Close targetFile)
                    (copied <- io_Copy targetFile sourceFile ;;
                     let '(_, err) := copied in
                     Return err)
              end
          end)
   end)%io.

(** [func WriteFile(target string, data []byte) error] *)
Definition WriteFile (target : string) (data : list Byte.byte)
  : io (option os.error) :=
  (let '(dir, _) := Split target in
   err <- os_MkdirAll dir DefaultPerm ;;
   match err with
   | Some _ => Return err
   | None =>
       err <- ioutil_WriteFile target data DefaultPerm ;;
       Return err
   end)%io.

End Commands.

(** The initial value of [DefaultPerm]: [0750], u=rwx, g=r-x, o=---. *)
Definition DefaultPerm_0750 : FileMode := 7 * 64 + 5 * 8 + 0.

(** A call made, with its answer. *)
Inductive event : Type :=
| Event {R : Type} (c : call R) (r : R).

(** A system answers each call, by its place in the run. *)
Definition system : Type := forall R : Type, nat -> call R -> R.

(** The run of a command from the [n]-th call on: the calls it makes with
    their answers, and what it returns. *)
Fixpoint run {A : Type} (sys : system) (p : io A) (n : nat)
  : list event * A :=
  match p with
  | Return a => ([], a)
  | Do c k =>
      let r := sys _ n c in
      let '(trace, a) := run sys (k r) (S n) in
      (Event c r :: trace, a)
  end.

(** The files an event opens, and the files it closes. *)
Definition opens (e : event) : list fd :=
  match e with
  | Event c r =>
      match c in call R return R -> list fd with
      | os_Open _ | os_Create _ =>
          fun r => match r with os.Ok f => [f] | os.Err _ => [] end
      | _ => fun _ => []
      end r
  end.

Definition closes (e : event) : list fd :=
  match e with
  | Event c _ =>
      match c with
      | File_Close f => [f]
      | _ => []
      end
  end.

(** The event changes the file system: it is a call other than opening a
    file for reading or closing one. *)
Definition writes (e : event) : bool :=
  match e with
  | Event c _ =>
      match c with
      | os_Open _ | File_Close _ => false
      | _ => true
      end
  end.

Definition is_Close {R : Type} (c : call R) : bool :=
  match c with
  | File_Close _ => true
  | _ => false
  end.

(** A system where every call succeeds; opening gives the file numbered by
    the place of the call. *)
Definition obliging : system :=
  fun R n c =>
    match c in call R return R with
    | os_Open _ => os.Ok n
    | os_MkdirAll _ _ => None
    | os_Create _ => os.Ok n
    | io_Copy _ _ => (0, None)
    | File_Close _ => None
    | ioutil_WriteFile _ _ _ => None
    end.


(** ** The paths [Explore] builds *)

(** The path starts with a slash. *)
Definition rooted (p : string) : bool :=
  match p with
  | EmptyString => false
  | String c _ => Ascii.eqb c path.slash
  end.

(** The elements [path.Clean] keeps of a path, the last one first. *)
Definition elements (p : string) : list string :=
  fold_left (path.clean_elem (rooted p)) (path.split p) [].

(** The path [path.Clean] prints for the elements it kept. *)
Definition render (is_rooted : bool) (kept : list string) : string :=
  let out := rev kept in
  if is_rooted then String.append "/" (String.concat "/" out)
  else match out with
       | [] => "."
       | _ => String.concat "/" out
       end.

Fixpoint slash_free (s : string) : bool :=
  match s with
  | EmptyString => true
  | String c rest => negb (Ascii.eqb c path.slash) && slash_free rest
  end.

(** A name a directory entry can have and [Ls] lists: not empty, without a
    slash, not hidden. *)
Definition listable (name : string) : Prop :=
  name <> "" /\ slash_free name = true /\ IsHidden name = false.

(** The elements [path.Clean] can keep: names, above [..] elements at the
    start of a path that is not rooted. *)
Inductive tidy (is_rooted : bool) : list string -> Prop :=
| tidy_nil : tidy is_rooted []
| tidy_up (kept : list string) :
    is_rooted = false -> Forall (eq "..") kept ->
    tidy is_rooted (".." :: kept)
| tidy_name (name : string) (kept : list string) :
    slash_free name = true -> name <> "" -> name <> "." -> name <> ".." ->
    tidy is_rooted kept ->
    tidy is_rooted (name :: kept).

(** What [path.Join] puts before a name joined to [root]. *)
Definition prefix_of (root : string) : string :=
  if (path.Clean root =? ".") then ""
  else if (path.Clean root =? "/") then "/"
  else String.append (path.Clean root) "/".

(** The directories of a tree in pre-order as [prefix] followed by their
    path from the root of the tree, its names separated by slashes;
    hidden directories and what is below them left out. *)
Fixpoint prefixed_dirs (t : tree) (prefix : string) {struct t} : list string :=
  match t with
  | Unreadable _ => []
  | Directory entries =>
      (fix each (es : list entry) : list string :=
         match es with
         | [] => []
         | File _ :: es' => each es'
         | Subdir name content :: es' =>
             if IsHidden name then each es'
             else (String.append prefix name
                   :: prefixed_dirs content
                        (String.append prefix (String.append name "/")))
                  ++ each es'
         end) entries
  end.

Fixpoint prefixed_dirs_each (prefix : string) (es : list entry) : list string :=
  match es with
  | [] => []
  | File _ :: es' => prefixed_dirs_each prefix es'
  | Subdir name content :: es' =>
      if IsHidden name then prefixed_dirs_each prefix es'
      else (String.append prefix name
            :: prefixed_dirs content
                 (String.append prefix (String.append name "/")))
           ++ prefixed_dirs_each prefix es'
  end.

(** The subdirectories [Explore] walks have names a directory entry can
    have, no two of them the same in one directory. *)
Fixpoint well_named (t : tree) : Prop :=
  match t with
  | Unreadable _ => True
  | Directory entries =>
      NoDup (listed_subdirs entries)
      /\ (fix each (es : list entry) : Prop :=
            match es with
            | [] => True
            | File _ :: es' => each es'
            | Subdir name content :: es' =>
                (IsHidden name = false ->
                 listable name /\ well_named content) /\ each es'
            end) entries
  end.

Fixpoint well_named_each (es : list entry) : Prop :=
  match es with
  | [] => True
  | File _ :: es' => well_named_each es'
  | Subdir name content :: es' =>
      (IsHidden name = false -> listable name /\ well_named content)
      /\ well_named_each es'
  end.

(** ** The standard library's model on the paths of the examples *)

Example Join_dot : path.Join "." "a" = "a".
Proof. reflexivity. Qed.

Example Join_sub : path.Join "a" "b" = "a/b".
Proof. reflexivity. Qed.

Example Clean_cases :
  map path.Clean
    ["a//b/./c/.."; "/../a"; "../../x"; "a/.."; "/"; "a/b/../../.."; "r/"]
  = ["a/b"; "/a"; "../../x"; "."; "/"; ".."; "r"].
Proof. reflexivity. Qed.

Example Explore_example :
  Explore (example_fs ".") 3 "." = Some (["a"; "a/b"], ["f1"; "f2"]).
Proof. reflexivity. Qed.

(** ** The hidden-name predicate *)

Lemma substring_0_0 (s : string) : substring 0 0 s = "".
Proof. destruct s; reflexivity. Qed.

Lemma IsHidden_String (c : ascii) (rest : string) :
  IsHidden (String c rest) = Ascii.eqb c "."%char.
Proof.
  unfold IsHidden, strings.HasPrefix.
  cbn [String.length Nat.leb andb substring].
  rewrite substring_0_0.
  cbn [String.eqb].
  destruct (Ascii.eqb c "."%char); reflexivity.
Qed.

(** C8. [IsHidden] is a total function from names to booleans that reads
    nothing but its argument, and it answers [true] exactly for the names
    that start with the character [.]. *)
Theorem IsHidden_iff_starts_with_dot (target : string) :
  IsHidden target = true <-> exists rest, target = String "."%char rest.
Proof.
  destruct target as [|c rest].
  - split; [discriminate | intros [rest H]; discriminate].
  - rewrite IsHidden_String, Ascii.eqb_eq.
    split.
    + intros ->. now exists rest.
    + intros [rest' H]. now inversion H.
Qed.

(** ** The existence check *)

(** C10. [IsExist] answers [true] exactly when [os.Stat] fails with an
    error that reports the target does not exist; so it answers [false] for
    every target [os.Stat] finds, and also when [os.Stat] fails for another
    reason. *)
Theorem IsExist_true_iff_not_exist
  (Stat : string -> os.result os.FileInfo) (target : string) :
  (IsExist Stat target = true <->
   exists err, Stat target = os.Err err /\ os.IsNotExist (Some err) = true)
  /\ (forall found, Stat target = os.Ok found -> IsExist Stat target = false)
  /\ (forall err, Stat target = os.Err err -> err <> os.ENOENT ->
      IsExist Stat target = false).
Proof.
  unfold IsExist.
  repeat split.
  - destruct (Stat target) as [found|err]; cbn [os.err_of].
    + discriminate.
    + intros H. now exists err.
  - intros [err [-> H]]. exact H.
  - intros found ->. reflexivity.
  - intros err -> Hne. destruct err; try reflexivity. now elim Hne.
Qed.

Lemma IsExist_true_iff_not_exist_witness :
  IsExist stat_fs "notes.txt" = false
  /\ IsExist stat_fs "locked/secret" = false
  /\ IsExist stat_fs "nothing" = true.
Proof.
  destruct (IsExist_true_iff_not_exist stat_fs "notes.txt") as [_ [Hfound _]].
  destruct (IsExist_true_iff_not_exist stat_fs "locked/secret") as [_ [_ Hother]].
  destruct (IsExist_true_iff_not_exist stat_fs "nothing") as [[_ Hmissing] _].
  split; [| split].
  - apply (Hfound (file "notes.txt")). reflexivity.
  - apply (Hother os.EACCES); [reflexivity | discriminate].
  - apply Hmissing. exists os.ENOENT. split; reflexivity.
Defined.

(** ** The directory lister *)

Lemma append_each_app (dst src : list string) :
  append_each dst src = dst ++ src.
Proof.
  revert dst.
  induction src as [|x src IH]; intros dst; cbn [append_each].
  - now rewrite app_nil_r.
  - now rewrite IH, <- app_assoc.
Qed.

Lemma Ls_range_filter (directory : list os.FileInfo) (dirs files : list string) :
  Ls_range directory dirs files
  = (dirs ++ map os.Name (filter listed_dir directory),
     files ++ map os.Name (filter listed_file directory)).
Proof.
  revert dirs files.
  induction directory as [|element rest IH]; intros dirs files.
  - cbn. now rewrite !app_nil_r.
  - cbn [Ls_range filter]. unfold listed_dir at 1, listed_file at 1.
    destruct (IsHidden (os.Name element)); cbn [negb andb].
    + apply IH.
    + destruct (os.IsDir element); cbn [negb map]; rewrite IH;
        now rewrite <- app_assoc.
Qed.

Lemma filter_complement_Permutation {A : Type} (f : A -> bool) (l : list A) :
  Permutation (filter f l ++ filter (fun x => negb (f x)) l) l.
Proof.
  induction l as [|x l IH]; cbn [filter].
  - constructor.
  - destruct (f x); cbn [negb app].
    + now constructor.
    + symmetry. apply Permutation_cons_app. now symmetry.
Qed.

Section ListerFacts.

Variable ReadDir : string -> os.result (list os.FileInfo).

Lemma Ls_Ok (target : string) (directory : list os.FileInfo) :
  ReadDir target = os.Ok directory ->
  Ls ReadDir target
  = (map os.Name (filter listed_dir directory),
     map os.Name (filter listed_file directory)).
Proof.
  intros H. unfold Ls. rewrite H. apply Ls_range_filter.
Qed.

Lemma Ls_Err (target : string) (err : os.error) :
  ReadDir target = os.Err err -> Ls ReadDir target = ([], []).
Proof.
  intros H. unfold Ls. now rewrite H.
Qed.

Lemma In_Ls_dirs (target name : string) :
  In name (fst (Ls ReadDir target)) ->
  exists directory,
    ReadDir target = os.Ok directory
    /\ In (dir name) directory
    /\ IsHidden name = false.
Proof.
  destruct (ReadDir target) as [directory|err] eqn:Hread.
  - rewrite (Ls_Ok _ _ Hread). cbn [fst].
    rewrite in_map_iff. intros [[n d] [Hname Hin]].
    apply filter_In in Hin. destruct Hin as [Hin Hlisted].
    unfold listed_dir in Hlisted. cbn in Hname, Hlisted. subst n.
    apply andb_prop in Hlisted. destruct Hlisted as [Hvisible Hdir].
    subst d. exists directory. repeat split; trivial.
    now apply negb_true_iff.
  - rewrite (Ls_Err _ _ Hread). contradiction.
Qed.

Lemma In_Ls_files (target name : string) :
  In name (snd (Ls ReadDir target)) ->
  exists directory,
    ReadDir target = os.Ok directory
    /\ In (file name) directory
    /\ IsHidden name = false.
Proof.
  destruct (ReadDir target) as [directory|err] eqn:Hread.
  - rewrite (Ls_Ok _ _ Hread). cbn [snd].
    rewrite in_map_iff. intros [[n d] [Hname Hin]].
    apply filter_In in Hin. destruct Hin as [Hin Hlisted].
    unfold listed_file in Hlisted. cbn in Hname, Hlisted. subst n.
    apply andb_prop in Hlisted. destruct Hlisted as [Hvisible Hdir].
    apply negb_true_iff in Hdir. subst d.
    exists directory. repeat split; trivial.
    now apply negb_true_iff.
  - rewrite (Ls_Err _ _ Hread). contradiction.
Qed.

(** C4. For a directory that is read and has no hidden entry, [Ls] returns
    the names of the entries that are directories, in the order read, as its
    first result and the names of the other entries as its second; together
    the two results hold the name of every entry exactly once, and their
    lengths add up to the number of entries. *)
Theorem Ls_lists_every_child (target : string) (directory : list os.FileInfo) :
  ReadDir target = os.Ok directory ->
  (forall element, In element directory ->
                   IsHidden (os.Name element) = false) ->
  fst (Ls ReadDir target) = map os.Name (filter os.IsDir directory)
  /\ snd (Ls ReadDir target)
     = map os.Name (filter (fun element => negb (os.IsDir element)) directory)
  /\ Permutation (fst (Ls ReadDir target) ++ snd (Ls ReadDir target))
                 (map os.Name directory)
  /\ length (fst (Ls ReadDir target)) + length (snd (Ls ReadDir target))
     = length directory.
Proof.
  intros Hread Hplain.
  rewrite (Ls_Ok _ _ Hread). cbn [fst snd].
  assert (Hdirs : filter listed_dir directory = filter os.IsDir directory).
  { apply filter_ext_in. intros e He. unfold listed_dir.
    now rewrite (Hplain e He). }
  assert (Hfiles : filter listed_file directory
                   = filter (fun e => negb (os.IsDir e)) directory).
  { apply filter_ext_in. intros e He. unfold listed_file.
    now rewrite (Hplain e He). }
  rewrite Hdirs, Hfiles.
  assert (Hperm : Permutation
                    (map os.Name (filter os.IsDir directory)
                     ++ map os.Name
                          (filter (fun e => negb (os.IsDir e)) directory))
                    (map os.Name directory)).
  { rewrite <- map_app. apply Permutation_map.
    apply filter_complement_Permutation. }
  repeat split; trivial.
  rewrite <- length_app, <- (length_map os.Name directory).
  now apply Permutation_length.
Qed.

(** A directory that holds hidden entries only is listed as empty. *)
Lemma Ls_hidden_only (target : string) (directory : list os.FileInfo) :
  ReadDir target = os.Ok directory ->
  (forall element, In element directory ->
                   IsHidden (os.Name element) = true) ->
  Ls ReadDir target = ([], []).
Proof.
  intros Hread Hhidden. rewrite (Ls_Ok _ _ Hread).
  clear Hread.
  induction directory as [|element rest IH]; [reflexivity|].
  cbn [filter]. unfold listed_dir at 1, listed_file at 1.
  rewrite (Hhidden element (or_introl eq_refl)). cbn [negb andb].
  apply IH. intros e He. apply Hhidden. now right.
Qed.

End ListerFacts.

Lemma Ls_lists_every_child_witness :
  Ls plain_fs "." = (["bin"; "pkg"], ["go.mod"; "main.go"])
  /\ Permutation (["bin"; "pkg"] ++ ["go.mod"; "main.go"])
                 ["bin"; "go.mod"; "main.go"; "pkg"]
  /\ 2 + 2 = 4.
Proof.
  destruct (Ls_lists_every_child plain_fs "."
              [dir "bin"; file "go.mod"; file "main.go"; dir "pkg"])
    as [Hdirs [Hfiles [Hperm Hcount]]].
  - reflexivity.
  - intros element Hin. cbn in Hin.
    repeat (destruct Hin as [<-|Hin]; [reflexivity|]). contradiction.
  - split; [reflexivity | split; [exact Hperm | exact Hcount]].
Defined.

(** ** The tree explorer *)

(** The loop over [dirList] in closed form: it returns when every recursive
    call does, and then has appended, subdirectory by subdirectory, what
    each turn emits. *)
Lemma Explore_range_closed
  (explore : string -> option (list string * list string))
  (root : string) (dirList dirs files : list string) :
  Explore_range explore root dirList dirs files
  = if forallb (returned explore root) dirList
    then Some (dirs ++ flat_map (emitted_dirs explore root) dirList,
               files ++ flat_map (emitted_files explore root) dirList)
    else None.
Proof.
  revert dirs files.
  induction dirList as [|d rest IH]; intros dirs files.
  - cbn. now rewrite !app_nil_r.
  - cbn [Explore_range forallb flat_map].
    unfold returned at 1, emitted_dirs at 1, emitted_files at 1.
    destruct (explore (path.Join root d)) as [[subDirs subFiles]|];
      cbn [andb]; [|reflexivity].
    rewrite !append_each_app, IH.
    destruct (forallb (returned explore root) rest); [|reflexivity].
    cbn [app]. now rewrite <- !app_assoc.
Qed.

(** Two recursive calls that agree on the subdirectories of [dirList] where
    the first returns make the loop emit the same. *)
Lemma emitted_agree
  (explore1 explore2 : string -> option (list string * list string))
  (root : string) (dirList : list string) :
  (forall d sub, In d dirList -> explore1 (path.Join root d) = Some sub ->
                 explore2 (path.Join root d) = Some sub) ->
  forallb (returned explore1 root) dirList = true ->
  forallb (returned explore2 root) dirList = true
  /\ flat_map (emitted_dirs explore1 root) dirList
     = flat_map (emitted_dirs explore2 root) dirList
  /\ flat_map (emitted_files explore1 root) dirList
     = flat_map (emitted_files explore2 root) dirList.
Proof.
  induction dirList as [|d rest IH]; intros Hagree Hret.
  - now cbn.
  - cbn [forallb flat_map] in *.
    apply andb_prop in Hret. destruct Hret as [Hd Hrest].
    destruct IH as [IH1 [IH2 IH3]]; trivial.
    { intros d' sub Hin. apply Hagree. now right. }
    unfold returned, emitted_dirs, emitted_files in *.
    destruct (explore1 (path.Join root d)) as [sub|] eqn:H1; [|discriminate].
    rewrite (Hagree d sub (or_introl eq_refl) H1).
    rewrite IH2, IH3. repeat split; trivial.
Qed.

Section ExplorerFacts.

Variable ReadDir : string -> os.result (list os.FileInfo).

Lemma Explore_S (frames : nat) (root : string) :
  Explore ReadDir (S frames) root
  = if forallb (returned (Explore ReadDir frames) root)
               (fst (Ls ReadDir root))
    then Some (flat_map (emitted_dirs (Explore ReadDir frames) root)
                        (fst (Ls ReadDir root)),
               snd (Ls ReadDir root)
               ++ flat_map (emitted_files (Explore ReadDir frames) root)
                           (fst (Ls ReadDir root)))
    else None.
Proof.
  cbn [Explore].
  destruct (Ls ReadDir root) as [dirList fileList]. cbn [fst snd].
  rewrite Explore_range_closed, append_each_app.
  reflexivity.
Qed.

(** A call that returns on some stack returns the same on a deeper one. *)
Lemma Explore_more_frames (frames : nat) :
  forall root sub,
    Explore ReadDir frames root = Some sub ->
    Explore ReadDir (S frames) root = Some sub.
Proof.
  induction frames as [|frames IH]; intros root sub H.
  - discriminate.
  - rewrite Explore_S in H. rewrite Explore_S.
    destruct (forallb (returned (Explore ReadDir frames) root)
                      (fst (Ls ReadDir root))) eqn:Hret; [|discriminate].
    destruct (emitted_agree (Explore ReadDir frames)
                (Explore ReadDir (S frames)) root (fst (Ls ReadDir root)))
      as [H1 [H2 H3]]; trivial.
    { intros d sub' _. apply IH. }
    now rewrite H1, <- H2, <- H3.
Qed.

Lemma Explore_frames_le (frames frames' : nat) (root : string)
  (sub : list string * list string) :
  frames <= frames' ->
  Explore ReadDir frames root = Some sub ->
  Explore ReadDir frames' root = Some sub.
Proof.
  induction 1 as [|frames' _ IH]; intros H; trivial.
  now apply Explore_more_frames, IH.
Qed.

(** What a returned call holds, by the subdirectory it came from. *)
Lemma Explore_S_inv (frames : nat) (root : string) (dirs files : list string) :
  Explore ReadDir (S frames) root = Some (dirs, files) ->
  (forall d, In d (fst (Ls ReadDir root)) ->
             exists sub, Explore ReadDir frames (path.Join root d) = Some sub)
  /\ dirs = flat_map (emitted_dirs (Explore ReadDir frames) root)
                     (fst (Ls ReadDir root))
  /\ files = snd (Ls ReadDir root)
             ++ flat_map (emitted_files (Explore ReadDir frames) root)
                         (fst (Ls ReadDir root)).
Proof.
  rewrite Explore_S.
  destruct (forallb _ _) eqn:Hret; [|discriminate].
  intros H. injection H as <- <-.
  repeat split.
  intros d Hd. rewrite forallb_forall in Hret.
  specialize (Hret d Hd). unfold returned in Hret.
  destruct (Explore ReadDir frames (path.Join root d)) as [sub|];
    [now exists sub | discriminate].
Qed.

End ExplorerFacts.

(** An empty directory is explored in one frame. *)
Example Explore_empty_directory :
  Explore (table [(".", [])]) 1 "." = Some ([], []).
Proof. reflexivity. Qed.

(** *** Failed reads *)

(** C3. When reading the target fails, whatever the error, [Ls] returns two
    empty sequences and no error; [Explore] of such a root returns two empty
    sequences too.  Both results are the ones returned on any file system
    where the target is an empty directory. *)
Theorem unreadable_is_silently_empty
  (ReadDir : string -> os.result (list os.FileInfo))
  (target : string) (err : os.error) :
  ReadDir target = os.Err err ->
  Ls ReadDir target = ([], [])
  /\ (forall frames, Explore ReadDir (S frames) target = Some ([], []))
  /\ (forall Empty : string -> os.result (list os.FileInfo),
        Empty target = os.Ok [] ->
        Ls Empty target = Ls ReadDir target
        /\ forall frames,
             Explore Empty (S frames) target
             = Explore ReadDir (S frames) target).
Proof.
  intros Hread.
  assert (HLs : Ls ReadDir target = ([], [])) by exact (Ls_Err _ _ _ Hread).
  assert (HEx : forall frames, Explore ReadDir (S frames) target = Some ([], [])).
  { intros frames. rewrite Explore_S, HLs. reflexivity. }
  repeat split; trivial.
  - rewrite HLs. now rewrite (Ls_Ok _ _ _ H).
  - intros frames. rewrite HEx, Explore_S, (Ls_Ok _ _ _ H). reflexivity.
Qed.

Lemma unreadable_is_silently_empty_witness :
  Ls repository_fs "build" = ([], [])
  /\ Explore repository_fs 1 "build" = Some ([], [])
  /\ Ls (table [("build", [])]) "build" = Ls repository_fs "build".
Proof.
  destruct (unreadable_is_silently_empty repository_fs "build" os.ENOENT)
    as [HLs [HEx Hsame]].
  - reflexivity.
  - split; [exact HLs | split; [exact (HEx 0) |]].
    apply (Hsame (table [("build", [])])). reflexivity.
Defined.

(** *** Hidden entries *)

Lemma emitted_incl
  (explore : string -> option (list string * list string))
  (root d : string) (dirList subDirs subFiles : list string) :
  In d dirList ->
  explore (path.Join root d) = Some (subDirs, subFiles) ->
  incl (path.Join root d :: subDirs)
       (flat_map (emitted_dirs explore root) dirList)
  /\ incl subFiles (flat_map (emitted_files explore root) dirList).
Proof.
  intros Hd Hsub. split; intros x Hx; apply in_flat_map; exists d;
    (split; [exact Hd|]).
  - unfold emitted_dirs. now rewrite Hsub.
  - unfold emitted_files. now rewrite Hsub.
Qed.

Lemma In_emitted_dirs
  (explore : string -> option (list string * list string))
  (root p : string) (dirList : list string) :
  In p (flat_map (emitted_dirs explore root) dirList) ->
  exists d, In d dirList
    /\ (p = path.Join root d
        \/ exists subDirs subFiles,
             explore (path.Join root d) = Some (subDirs, subFiles)
             /\ In p subDirs).
Proof.
  rewrite in_flat_map. intros [d [Hd Hp]]. exists d. split; trivial.
  unfold emitted_dirs in Hp. destruct Hp as [<-|Hp]; [now left|].
  destruct (explore (path.Join root d)) as [[subDirs subFiles]|];
    [|contradiction].
  right. now exists subDirs, subFiles.
Qed.

Lemma In_emitted_files
  (explore : string -> option (list string * list string))
  (root f : string) (dirList : list string) :
  In f (flat_map (emitted_files explore root) dirList) ->
  exists d subDirs subFiles,
    In d dirList
    /\ explore (path.Join root d) = Some (subDirs, subFiles)
    /\ In f subFiles.
Proof.
  rewrite in_flat_map. intros [d [Hd Hf]].
  unfold emitted_files in Hf.
  destruct (explore (path.Join root d)) as [[subDirs subFiles]|] eqn:Hsub;
    [|contradiction].
  now exists d, subDirs, subFiles.
Qed.

(** [Explore] reads the root and the directories it lists, and nothing
    else: a file system that differs elsewhere gives the same results. *)
Lemma Explore_reads_listed_only
  (ReadDir ReadDir' : string -> os.result (list os.FileInfo)) (frames : nat) :
  forall root dirs files,
    Explore ReadDir frames root = Some (dirs, files) ->
    (forall p, p = root \/ In p dirs -> ReadDir' p = ReadDir p) ->
    Explore ReadDir' frames root = Some (dirs, files).
Proof.
  induction frames as [|frames IH]; intros root dirs files Hex Hsame.
  - discriminate.
  - assert (HLs : Ls ReadDir' root = Ls ReadDir root).
    { unfold Ls. now rewrite (Hsame root (or_introl eq_refl)). }
    destruct (Explore_S_inv _ _ _ _ _ Hex) as [_ [Hdirs _]].
    rewrite Explore_S in Hex. rewrite Explore_S, HLs.
    destruct (forallb (returned (Explore ReadDir frames) root)
                      (fst (Ls ReadDir root))) eqn:Hret; [|discriminate].
    destruct (emitted_agree (Explore ReadDir frames)
                (Explore ReadDir' frames) root (fst (Ls ReadDir root)))
      as [H1 [H2 H3]]; trivial.
    + intros d [subDirs subFiles] Hd Hsub.
      apply (IH _ _ _ Hsub).
      intros p Hp. apply Hsame. right. rewrite Hdirs.
      destruct (emitted_incl _ _ _ _ _ _ Hd Hsub) as [Hincl _].
      apply Hincl. destruct Hp as [->|Hp]; [now left | now right].
    + now rewrite H1, <- H2, <- H3.
Qed.

(** Each directory listed is the root joined, one name after the other,
    with names of subdirectories that are not hidden, and each file listed
    was read in the root or in such a directory. *)
Lemma Explore_descends_by_listed_names
  (ReadDir : string -> os.result (list os.FileInfo)) (frames : nat) :
  forall root dirs files,
    Explore ReadDir frames root = Some (dirs, files) ->
    (forall p, In p dirs ->
       exists names,
         names <> []
         /\ Forall (fun name => IsHidden name = false) names
         /\ p = fold_left path.Join names root)
    /\ (forall f, In f files ->
          exists names,
            Forall (fun name => IsHidden name = false) names
            /\ In f (snd (Ls ReadDir (fold_left path.Join names root)))).
Proof.
  induction frames as [|frames IH]; intros root dirs files Hex.
  - discriminate.
  - destruct (Explore_S_inv _ _ _ _ _ Hex) as [_ [Hdirs Hfiles]].
    assert (Hvis : forall d, In d (fst (Ls ReadDir root)) ->
                             IsHidden d = false).
    { intros d Hd. destruct (In_Ls_dirs _ _ _ Hd) as [? [_ [_ H]]]. exact H. }
    split.
    + intros p Hp. rewrite Hdirs in Hp.
      destruct (In_emitted_dirs _ _ _ _ Hp) as [d [Hd [->|Hbelow]]].
      * exists [d]. repeat split; [discriminate | auto].
      * destruct Hbelow as [subDirs [subFiles [Hsub Hin]]].
        destruct (IH _ _ _ Hsub) as [IHdirs _].
        destruct (IHdirs p Hin) as [names [_ [Hall ->]]].
        exists (d :: names). repeat split; [discriminate | auto].
    + intros f Hf. rewrite Hfiles in Hf. apply in_app_or in Hf.
      destruct Hf as [Hf|Hf].
      * exists []. split; [constructor | exact Hf].
      * destruct (In_emitted_files _ _ _ _ Hf)
          as [d [subDirs [subFiles [Hd [Hsub Hin]]]]].
        destruct (IH _ _ _ Hsub) as [_ IHfiles].
        destruct (IHfiles f Hin) as [names [Hall Hread]].
        exists (d :: names). split; [auto | exact Hread].
Qed.

(** C2. [Ls] returns no name that begins with [.], in either result.  The
    results of [Explore] come from the directories it reads, which are the
    root and the paths of its directory result: each path of the directory
    result is the join of such a directory and the name of a directory entry
    read there that is not hidden, so a hidden directory is neither listed
    nor read through its entry; each element of the file result is the name
    of an entry read in such a directory that is no directory and not
    hidden.  So every path listed is the root joined, name after name, with
    names that are not hidden.  Nothing else is read: the results are the
    same on every file system that agrees on the root and on the directories
    listed, whatever it holds elsewhere, as below a hidden directory. *)
Theorem hidden_entries_are_skipped
  (ReadDir : string -> os.result (list os.FileInfo)) :
  (forall target name,
      In name (fst (Ls ReadDir target)) \/ In name (snd (Ls ReadDir target)) ->
      IsHidden name = false)
  /\ (forall frames root dirs files,
        Explore ReadDir frames root = Some (dirs, files) ->
        (forall p, In p dirs ->
           exists parent name directory,
             p = path.Join parent name
             /\ (parent = root \/ In parent dirs)
             /\ ReadDir parent = os.Ok directory
             /\ In (dir name) directory
             /\ IsHidden name = false)
        /\ (forall f, In f files ->
              exists parent directory,
                (parent = root \/ In parent dirs)
                /\ ReadDir parent = os.Ok directory
                /\ In (file f) directory
                /\ IsHidden f = false)
        /\ (forall p, In p dirs ->
              exists names,
                names <> []
                /\ Forall (fun name => IsHidden name = false) names
                /\ p = fold_left path.Join names root)
        /\ (forall ReadDir' : string -> os.result (list os.FileInfo),
              (forall p, p = root \/ In p dirs -> ReadDir' p = ReadDir p) ->
              Explore ReadDir' frames root = Some (dirs, files))).
Proof.
  split.
  - intros target name [H|H].
    + destruct (In_Ls_dirs _ _ _ H) as [directory [_ [_ Hvisible]]].
      exact Hvisible.
    + destruct (In_Ls_files _ _ _ H) as [directory [_ [_ Hvisible]]].
      exact Hvisible.
  - induction frames as [|frames IH]; intros root dirs files Hex.
    + discriminate.
    + destruct (Explore_S_inv _ _ _ _ _ Hex) as [_ [Hdirs Hfiles]].
      split; [|split; [|split]];
        [| | exact (proj1 (Explore_descends_by_listed_names _ _ _ _ _ Hex))
           | intros ReadDir' Hsame;
             exact (Explore_reads_listed_only _ _ _ _ _ _ Hex Hsame)].
      * intros p Hp. rewrite Hdirs in Hp.
        destruct (In_emitted_dirs _ _ _ _ Hp) as [d [Hd [->|Hbelow]]].
        -- destruct (In_Ls_dirs _ _ _ Hd) as [directory [Hread [Hin Hvis]]].
           exists root, d, directory. repeat split; trivial. now left.
        -- destruct Hbelow as [subDirs [subFiles [Hsub Hin]]].
           destruct (IH _ _ _ Hsub) as [IHdirs _].
           destruct (IHdirs p Hin)
             as [parent [name [directory [Hp' [Hparent Hrest]]]]].
           exists parent, name, directory. repeat split; try apply Hrest; trivial.
           right. rewrite Hdirs.
           destruct (emitted_incl _ _ _ _ _ _ Hd Hsub) as [Hincl _].
           apply Hincl. destruct Hparent as [->|Hparent];
             [now left | now right].
      * intros f Hf. rewrite Hfiles in Hf. apply in_app_or in Hf.
        destruct Hf as [Hf|Hf].
        -- destruct (In_Ls_files _ _ _ Hf) as [directory [Hread [Hin Hvis]]].
           exists root, directory. repeat split; trivial. now left.
        -- destruct (In_emitted_files _ _ _ _ Hf)
             as [d [subDirs [subFiles [Hd [Hsub Hin]]]]].
           destruct (IH _ _ _ Hsub) as [_ [IHfiles _]].
           destruct (IHfiles f Hin) as [parent [directory [Hparent Hrest]]].
           exists parent, directory. repeat split; try apply Hrest.
           right. rewrite Hdirs.
           destruct (emitted_incl _ _ _ _ _ _ Hd Hsub) as [Hincl _].
           apply Hincl. destruct Hparent as [->|Hparent];
             [now left | now right].
Qed.

(** On the working copy, [.git] and what it holds are in no result, and the
    directory listed is reached from the root through an entry that is not
    hidden. *)
Lemma hidden_entries_are_skipped_witness :
  Explore repository_fs 2 "." = Some (["src"], ["README"; "main.go"])
  /\ IsHidden "src" = false
  /\ exists parent name directory,
       "src" = path.Join parent name
       /\ (parent = "." \/ In parent ["src"])
       /\ repository_fs parent = os.Ok directory
       /\ In (dir name) directory
       /\ IsHidden name = false.
Proof.
  destruct (hidden_entries_are_skipped repository_fs) as [HLs HEx].
  split; [reflexivity | split].
  - apply (HLs "." "src"). left. cbn. now left.
  - destruct (HEx 2 "." ["src"] ["README"; "main.go"] eq_refl) as [Hdirs _].
    apply (Hdirs "src"). now left.
Defined.

(** The same results when [.git] cannot be read at all. *)
Example Explore_ignores_git :
  Explore
    (table [(".", [dir ".git"; file "README"; dir "src"]);
            ("src", [file "main.go"])]) 2 "."
  = Explore repository_fs 2 ".".
Proof. reflexivity. Qed.

(** *** Order of the results *)

(** The results of the recursive calls on the subdirectories of [dirList],
    in order. *)
Lemma subcalls_returned
  (explore : string -> option (list string * list string))
  (root : string) (dirList : list string) :
  forallb (returned explore root) dirList = true ->
  exists subs,
    Forall2 (fun d sub => explore (path.Join root d) = Some sub) dirList subs
    /\ flat_map (emitted_dirs explore root) dirList
       = flat_map (fun '(d, sub) => path.Join root d :: fst sub)
                  (combine dirList subs)
    /\ flat_map (emitted_files explore root) dirList = flat_map snd subs.
Proof.
  induction dirList as [|d rest IH]; intros Hret.
  - exists []. repeat split. constructor.
  - cbn [forallb] in Hret. apply andb_prop in Hret.
    destruct Hret as [Hd Hrest].
    destruct (IH Hrest) as [subs [Hall [Hdirs Hfiles]]].
    unfold returned in Hd.
    destruct (explore (path.Join root d)) as [[subDirs subFiles]|] eqn:Hsub;
      [|discriminate].
    exists ((subDirs, subFiles) :: subs). repeat split.
    + now constructor.
    + cbn [flat_map combine fst]. rewrite <- Hdirs.
      unfold emitted_dirs at 1. now rewrite Hsub.
    + cbn [flat_map snd]. rewrite <- Hfiles.
      unfold emitted_files at 1. now rewrite Hsub.
Qed.

(** A directory listed is followed at once by what its own exploration
    lists, and the files found below it stand together. *)
Lemma Explore_below_listed
  (ReadDir : string -> os.result (list os.FileInfo)) (frames : nat) :
  forall root dirs files p,
    Explore ReadDir frames root = Some (dirs, files) ->
    In p dirs ->
    exists below belowFiles,
      Explore ReadDir frames p = Some (below, belowFiles)
      /\ (exists before after, dirs = before ++ p :: below ++ after)
      /\ (exists before after, files = before ++ belowFiles ++ after).
Proof.
  induction frames as [|frames IH]; intros root dirs files p Hex Hp.
  - discriminate.
  - destruct (Explore_S_inv _ _ _ _ _ Hex) as [_ [Hdirs Hfiles]].
    rewrite Hdirs in Hp. apply in_flat_map in Hp.
    destruct Hp as [d [Hd Hp]].
    apply in_split in Hd. destruct Hd as [earlier [later Hd]].
    rewrite Hd, !flat_map_app in Hdirs, Hfiles.
    cbn [flat_map] in Hdirs, Hfiles.
    unfold emitted_dirs at 2 in Hdirs. unfold emitted_files at 2 in Hfiles.
    unfold emitted_dirs in Hp.
    destruct (Explore ReadDir frames (path.Join root d))
      as [[subDirs subFiles]|] eqn:Hsub.
    + destruct Hp as [<-|Hp].
      * exists subDirs, subFiles. split; [|split].
        -- now apply Explore_more_frames.
        -- eexists _, _. exact Hdirs.
        -- eexists _, _. rewrite Hfiles, app_assoc. reflexivity.
      * destruct (IH _ _ _ _ Hsub Hp)
          as [below [belowFiles [Hbelow [[b1 [a1 H1]] [b2 [a2 H2]]]]]].
        exists below, belowFiles. split; [|split].
        -- now apply Explore_more_frames.
        -- exists (flat_map (emitted_dirs (Explore ReadDir frames) root) earlier
                   ++ path.Join root d :: b1),
             (a1 ++ flat_map (emitted_dirs (Explore ReadDir frames) root) later).
           rewrite Hdirs, H1. cbn [app].
           rewrite <- !app_assoc. cbn [app]. now rewrite <- !app_assoc.
        -- exists ((snd (Ls ReadDir root)
                    ++ flat_map (emitted_files (Explore ReadDir frames) root)
                                earlier) ++ b2),
             (a2 ++ flat_map (emitted_files (Explore ReadDir frames) root) later).
           rewrite Hfiles, H2. now rewrite <- !app_assoc.
    + destruct Hp as [<-|[]].
      (* the call on this subdirectory did not return: the loop did not *)
      rewrite Explore_S in Hex. rewrite Hd in Hex.
      rewrite forallb_app in Hex. cbn [forallb] in Hex.
      unfold returned at 2 in Hex. rewrite Hsub in Hex.
      cbn [andb] in Hex. rewrite andb_false_r in Hex. discriminate.
Qed.

(** C6, as amended.  The results are in the order of the traversal.  A call
    that returns has emitted the files of its own level before any file
    from inside its subdirectories, and then, subdirectory by subdirectory
    in the order [Ls] gave them, the subdirectory's path followed at once by
    all that its exploration lists, depth-first, before the path of the next
    sibling is emitted; the files found below a subdirectory follow those
    found below the siblings before it.  So each directory listed is
    followed at once by the directories found below it: it precedes all of
    its descendants. *)
Theorem Explore_traversal_order
  (ReadDir : string -> os.result (list os.FileInfo))
  (frames : nat) (root : string) (dirs files : list string) :
  Explore ReadDir (S frames) root = Some (dirs, files) ->
  (exists subs,
      Forall2 (fun d sub => Explore ReadDir frames (path.Join root d) = Some sub)
              (fst (Ls ReadDir root)) subs
      /\ dirs = flat_map (fun '(d, sub) => path.Join root d :: fst sub)
                         (combine (fst (Ls ReadDir root)) subs)
      /\ files = snd (Ls ReadDir root) ++ flat_map snd subs)
  /\ (forall p, In p dirs ->
        exists below belowFiles,
          Explore ReadDir (S frames) p = Some (below, belowFiles)
          /\ (exists before after, dirs = before ++ p :: below ++ after)
          /\ (exists before after, files = before ++ belowFiles ++ after)).
Proof.
  intros Hex. split.
  - destruct (Explore_S_inv _ _ _ _ _ Hex) as [_ [Hdirs Hfiles]].
    rewrite Explore_S in Hex.
    destruct (forallb (returned (Explore ReadDir frames) root)
                      (fst (Ls ReadDir root))) eqn:Hret; [|discriminate].
    destruct (subcalls_returned _ _ _ Hret) as [subs [Hall [Hd Hf]]].
    exists subs. repeat split; trivial.
    + now rewrite <- Hd.
    + now rewrite <- Hf.
  - intros p Hp. exact (Explore_below_listed _ _ _ _ _ _ Hex Hp).
Qed.

Lemma Explore_traversal_order_witness :
  (exists subs,
      Forall2 (fun d sub => Explore (example_fs ".") 2 (path.Join "." d) = Some sub)
              ["a"] subs
      /\ ["a"; "a/b"]
         = flat_map (fun '(d, sub) => path.Join "." d :: fst sub)
                    (combine ["a"] subs)
      /\ ["f1"; "f2"] = [] ++ flat_map snd subs)
  /\ exists below belowFiles,
       Explore (example_fs ".") 3 "a" = Some (below, belowFiles)
       /\ (exists before after, ["a"; "a/b"] = before ++ "a" :: below ++ after)
       /\ (exists before after, ["f1"; "f2"] = before ++ belowFiles ++ after).
Proof.
  destruct (Explore_traversal_order (example_fs ".") 2 "." ["a"; "a/b"]
              ["f1"; "f2"] eq_refl) as [Hlevel Hbelow].
  split.
  - exact Hlevel.
  - apply (Hbelow "a"). now left.
Defined.

(** The direct subdirectory [c] of the root is emitted after [a/b], which
    is inside its sibling [a]: the subdirectories of a level are not all
    emitted before what is inside them. *)
Lemma Explore_sibling_after_nested :
  Explore siblings_fs 3 "." = Some (["a"; "a/b"; "c"], ["f0"; "f1"; "f2"; "f3"])
  /\ fst (Ls siblings_fs ".") = ["a"; "c"]
  /\ fst (Ls siblings_fs "a") = ["b"]
  /\ path.Join "a" "b" = "a/b"
  /\ ~ (exists before between after,
          ["a"; "a/b"; "c"] = before ++ "c" :: between ++ "a/b" :: after).
Proof.
  repeat split.
  intros [before [between [after H]]].
  destruct before as [|x1 [|x2 [|x3 before]]]; cbn in H.
  - discriminate.
  - discriminate.
  - injection H as _ _ H. destruct between; discriminate.
  - injection H as _ _ _ H. destruct before; discriminate.
Qed.

(** *** Two explorations of an unmodified tree *)

Lemma filter_Permutation {A : Type} (keep : A -> bool) (xs ys : list A)
  (H : Permutation xs ys) :
  Permutation (filter keep xs) (filter keep ys).
Proof.
  induction H as [|x xs ys _ IH|x y xs|xs ys zs _ IH1 _ IH2]; cbn [filter].
  - constructor.
  - destruct (keep x); [now constructor | exact IH].
  - destruct (keep x), (keep y); try reflexivity. constructor.
  - now transitivity (filter keep ys).
Qed.

Lemma flat_map_Permutation_pointwise {A B : Type} (f g : A -> list B)
  (l : list A) :
  (forall x, In x l -> Permutation (f x) (g x)) ->
  Permutation (flat_map f l) (flat_map g l).
Proof.
  induction l as [|x l IH]; intros H; cbn [flat_map].
  - constructor.
  - apply Permutation_app.
    + apply H. now left.
    + apply IH. intros y Hy. apply H. now right.
Qed.

Lemma Ls_same_entries
  (ReadDir1 ReadDir2 : string -> os.result (list os.FileInfo))
  (target : string) :
  same_entries (ReadDir1 target) (ReadDir2 target) ->
  Permutation (fst (Ls ReadDir1 target)) (fst (Ls ReadDir2 target))
  /\ Permutation (snd (Ls ReadDir1 target)) (snd (Ls ReadDir2 target)).
Proof.
  unfold same_entries, Ls.
  destruct (ReadDir1 target) as [d1|e1], (ReadDir2 target) as [d2|e2];
    try contradiction.
  - intros Hperm. rewrite !Ls_range_filter. cbn [fst snd app].
    split; apply Permutation_map, filter_Permutation, Hperm.
  - intros _. split; constructor.
Qed.

Lemma Explore_permuted_reads
  (ReadDir1 ReadDir2 : string -> os.result (list os.FileInfo)) :
  (forall target, same_entries (ReadDir1 target) (ReadDir2 target)) ->
  forall frames root dirs1 files1,
    Explore ReadDir1 frames root = Some (dirs1, files1) ->
    exists dirs2 files2,
      Explore ReadDir2 frames root = Some (dirs2, files2)
      /\ Permutation dirs1 dirs2
      /\ Permutation files1 files2.
Proof.
  intros Hsame.
  induction frames as [|frames IH]; intros root dirs1 files1 Hex.
  - discriminate.
  - destruct (Explore_S_inv _ _ _ _ _ Hex) as [Hsub [-> ->]].
    destruct (Ls_same_entries _ _ root (Hsame root)) as [HLd HLf].
    assert (Hcalls : forall d, In d (fst (Ls ReadDir2 root)) ->
              exists sd1 sf1 sd2 sf2,
                Explore ReadDir1 frames (path.Join root d) = Some (sd1, sf1)
                /\ Explore ReadDir2 frames (path.Join root d) = Some (sd2, sf2)
                /\ Permutation sd1 sd2 /\ Permutation sf1 sf2).
    { intros d Hd.
      apply (Permutation_in _ (Permutation_sym HLd)) in Hd.
      destruct (Hsub d Hd) as [[sd1 sf1] H1].
      destruct (IH _ _ _ H1) as [sd2 [sf2 [H2 [Hpd Hpf]]]].
      now exists sd1, sf1, sd2, sf2. }
    rewrite Explore_S.
    assert (Hret : forallb (returned (Explore ReadDir2 frames) root)
                           (fst (Ls ReadDir2 root)) = true).
    { apply forallb_forall. intros d Hd.
      destruct (Hcalls d Hd) as [sd1 [sf1 [sd2 [sf2 [_ [H2 _]]]]]].
      unfold returned. now rewrite H2. }
    rewrite Hret. eexists _, _. split; [reflexivity|]. split.
    + etransitivity.
      * apply Permutation_flat_map. exact HLd.
      * apply flat_map_Permutation_pointwise. intros d Hd.
        destruct (Hcalls d Hd) as [sd1 [sf1 [sd2 [sf2 [H1 [H2 [Hpd _]]]]]]].
        unfold emitted_dirs. rewrite H1, H2. now constructor.
    + apply Permutation_app; [exact HLf|].
      etransitivity.
      * apply Permutation_flat_map. exact HLd.
      * apply flat_map_Permutation_pointwise. intros d Hd.
        destruct (Hcalls d Hd) as [sd1 [sf1 [sd2 [sf2 [H1 [H2 [_ Hpf]]]]]]].
        unfold emitted_files. now rewrite H1, H2.
Qed.

(** C7. Two calls of [Explore] on the same root, between which every
    directory holds the same entries and at most the order in which they
    are read differs, return results with the same members: a path is in
    the directory result of the first call exactly when it is in that of
    the second, and likewise for the file results (the results are
    permutations of each other).  When the reads do not differ at all, the
    two results are equal. *)
Theorem Explore_twice_same_members
  (ReadDir1 ReadDir2 : string -> os.result (list os.FileInfo))
  (frames : nat) (root : string) (dirs1 files1 : list string) :
  (forall target, same_entries (ReadDir1 target) (ReadDir2 target)) ->
  Explore ReadDir1 frames root = Some (dirs1, files1) ->
  exists dirs2 files2,
    Explore ReadDir2 frames root = Some (dirs2, files2)
    /\ (forall p, In p dirs1 <-> In p dirs2)
    /\ (forall f, In f files1 <-> In f files2)
    /\ Permutation dirs1 dirs2
    /\ Permutation files1 files2
    /\ ((forall target, ReadDir1 target = ReadDir2 target) ->
        dirs1 = dirs2 /\ files1 = files2).
Proof.
  intros Hsame Hex.
  destruct (Explore_permuted_reads _ _ Hsame _ _ _ _ Hex)
    as [dirs2 [files2 [Hex2 [Hpd Hpf]]]].
  exists dirs2, files2. repeat split; trivial.
  - now apply Permutation_in.
  - apply Permutation_in. now symmetry.
  - now apply Permutation_in.
  - apply Permutation_in. now symmetry.
  - assert (H1 : Explore ReadDir2 frames root = Some (dirs1, files1)).
    { apply (Explore_reads_listed_only ReadDir1); trivial.
      intros p _. symmetry. apply H. }
    congruence.
  - assert (H1 : Explore ReadDir2 frames root = Some (dirs1, files1)).
    { apply (Explore_reads_listed_only ReadDir1); trivial.
      intros p _. symmetry. apply H. }
    congruence.
Qed.

Lemma twins_same_entries (target : string) :
  same_entries (twins_fs target) (twins_fs_reordered target).
Proof.
  unfold twins_fs, twins_fs_reordered, same_entries. cbn [table].
  destruct ("." =? target); [apply perm_swap|].
  destruct ("a" =? target); [apply Permutation_refl|].
  destruct ("b" =? target); [apply Permutation_refl | exact I].
Qed.

Lemma Explore_twice_same_members_witness :
  Explore twins_fs 2 "." = Some (["a"; "b"], ["f"; "f"])
  /\ exists dirs2 files2,
       Explore twins_fs_reordered 2 "." = Some (dirs2, files2)
       /\ (forall p, In p ["a"; "b"] <-> In p dirs2)
       /\ (forall f, In f ["f"; "f"] <-> In f files2).
Proof.
  split; [reflexivity|].
  destruct (Explore_twice_same_members twins_fs twins_fs_reordered 2 "."
              ["a"; "b"] ["f"; "f"] twins_same_entries eq_refl)
    as [dirs2 [files2 [Hex [Hdirs [Hfiles _]]]]].
  exists dirs2, files2. split; [exact Hex | split; [exact Hdirs | exact Hfiles]].
Defined.

(** *** Termination on finite trees *)

Lemma levels_Directory (es : list entry) :
  levels (Directory es) = S (deepest es).
Proof. reflexivity. Qed.

Lemma levels_pos (t : tree) : 0 < levels t.
Proof. destruct t; cbn [levels]; lia. Qed.

Lemma deepest_In (es : list entry) (d : string) (c : tree) :
  In (Subdir d c) es -> IsHidden d = false -> levels c <= deepest es.
Proof.
  intros Hin Hvis.
  induction es as [|e es IH]; [contradiction|].
  destruct Hin as [->|Hin].
  - cbn [deepest]. rewrite Hvis. apply Nat.le_max_l.
  - specialize (IH Hin). destruct e as [name|name content]; cbn [deepest].
    + exact IH.
    + destruct (IsHidden name); [exact IH|].
      etransitivity; [exact IH | apply Nat.le_max_r].
Qed.

Lemma deepest_reached (es : list entry) :
  0 < deepest es ->
  exists d c,
    In (Subdir d c) es /\ IsHidden d = false /\ deepest es = levels c.
Proof.
  induction es as [|e es IH]; cbn [deepest]; intros Hpos.
  - inversion Hpos.
  - destruct e as [name|name content].
    + destruct (IH Hpos) as [d [c [Hin [Hvis Heq]]]].
      exists d, c. repeat split; trivial. now right.
    + destruct (IsHidden name) eqn:Hname.
      * destruct (IH Hpos) as [d [c [Hin [Hvis Heq]]]].
        exists d, c. repeat split; trivial. now right.
      * destruct (Nat.max_spec (levels content) (deepest es))
          as [[Hlt Hmax]|[Hle Hmax]]; rewrite Hmax.
        -- destruct IH as [d [c [Hin [Hvis Heq]]]]; [lia|].
           exists d, c. repeat split; trivial. now right.
        -- exists name, content. repeat split; trivial. now left.
Qed.

Section TreeFacts.

Variable ReadDir : string -> os.result (list os.FileInfo).

Lemma mounted_Directory (es : list entry) (root : string) :
  mounted ReadDir (Directory es) root
  <-> ReadDir root = os.Ok (map info es) /\ mounted_each ReadDir root es.
Proof.
  cbn [mounted].
  assert (Heach : forall l,
             (fix each (es : list entry) : Prop :=
                match es with
                | [] => True
                | File _ :: es' => each es'
                | Subdir name content :: es' =>
                    mounted ReadDir content (path.Join root name) /\ each es'
                end) l <-> mounted_each ReadDir root l).
  { induction l as [|[name|name content] l IH]; cbn [mounted_each].
    - reflexivity.
    - exact IH.
    - now rewrite IH. }
  now rewrite Heach.
Qed.

Lemma mounted_each_In (root : string) (es : list entry) (d : string) (c : tree) :
  mounted_each ReadDir root es ->
  In (Subdir d c) es ->
  mounted ReadDir c (path.Join root d).
Proof.
  intros Hm Hin.
  induction es as [|e es IH]; [contradiction|].
  destruct Hin as [->|Hin].
  - cbn [mounted_each] in Hm. apply Hm.
  - apply IH; trivial.
    destruct e as [name|name content]; cbn [mounted_each] in Hm;
      [exact Hm | apply Hm].
Qed.

(** The subdirectories [Ls] returns for a directory of a tree are its
    subdirectories that are not hidden. *)
Lemma Ls_dirs_of_tree (root : string) (es : list entry) (d : string) :
  ReadDir root = os.Ok (map info es) ->
  In d (fst (Ls ReadDir root))
  <-> (exists c, In (Subdir d c) es) /\ IsHidden d = false.
Proof.
  intros Hread. rewrite (Ls_Ok _ _ _ Hread). cbn [fst].
  rewrite in_map_iff. split.
  - intros [fi [Hname Hin]]. apply filter_In in Hin.
    destruct Hin as [Hin Hlisted]. apply in_map_iff in Hin.
    destruct Hin as [e [He Hin]]. subst fi.
    unfold listed_dir in Hlisted. apply andb_prop in Hlisted.
    destruct Hlisted as [Hvis Hdir].
    destruct e as [name|name content]; cbn in Hname, Hvis, Hdir.
    + discriminate.
    + subst name. split; [now exists content | now apply negb_true_iff].
  - intros [[c Hin] Hvis]. exists (dir d). split; [reflexivity|].
    apply filter_In. split.
    + apply in_map_iff. now exists (Subdir d c).
    + unfold listed_dir. cbn. now rewrite Hvis.
Qed.

(** Enough frames: as many as the levels walked. *)
Lemma Explore_returns_from_levels (n : nat) :
  forall t root,
    mounted ReadDir t root -> levels t <= n ->
    exists sub, Explore ReadDir n root = Some sub.
Proof.
  induction n as [|n IH]; intros t root Hm Hlevels.
  - pose proof (levels_pos t). lia.
  - rewrite Explore_S. destruct t as [err|es].
    + cbn [mounted] in Hm. rewrite (Ls_Err _ _ _ Hm). cbn. now eexists.
    + apply mounted_Directory in Hm. destruct Hm as [Hread Heach].
      rewrite levels_Directory in Hlevels.
      assert (Hret : forallb (returned (Explore ReadDir n) root)
                             (fst (Ls ReadDir root)) = true).
      { apply forallb_forall. intros d Hd.
        apply (Ls_dirs_of_tree _ _ _ Hread) in Hd.
        destruct Hd as [[c Hin] Hvis].
        pose proof (deepest_In _ _ _ Hin Hvis) as Hc.
        destruct (IH c (path.Join root d)) as [sub Hsub].
        - exact (mounted_each_In _ _ _ _ Heach Hin).
        - lia.
        - unfold returned. now rewrite Hsub. }
      rewrite Hret. now eexists.
Qed.

(** Too few frames: fewer than the levels walked. *)
Lemma Explore_exhausts_below_levels (n : nat) :
  forall t root,
    mounted ReadDir t root -> n < levels t ->
    Explore ReadDir n root = None.
Proof.
  induction n as [|n IH]; intros t root Hm Hlevels; [reflexivity|].
  destruct t as [err|es]; [cbn [levels] in Hlevels; lia|].
  apply mounted_Directory in Hm. destruct Hm as [Hread Heach].
  rewrite levels_Directory in Hlevels.
  destruct (deepest_reached es) as [d [c [Hin [Hvis Heq]]]]; [lia|].
  assert (Hd : In d (fst (Ls ReadDir root))).
  { apply (Ls_dirs_of_tree _ _ _ Hread). split; [now exists c | exact Hvis]. }
  assert (Hnone : Explore ReadDir n (path.Join root d) = None).
  { apply (IH c); [exact (mounted_each_In _ _ _ _ Heach Hin) | lia]. }
  rewrite Explore_S.
  destruct (forallb (returned (Explore ReadDir n) root)
                    (fst (Ls ReadDir root))) eqn:Hret; [|reflexivity].
  rewrite forallb_forall in Hret. specialize (Hret d Hd).
  unfold returned in Hret. rewrite Hnone in Hret. discriminate.
Qed.

(** What reading shows of a whole tree that the file system holds. *)

Lemma seen_Whole (l : list item) :
  seen (Whole None l) = Directory (seen_each l).
Proof. reflexivity. Qed.

Lemma depth_Whole (failure : option os.error) (l : list item) :
  depth (Whole failure l) = S (depth_each l).
Proof. reflexivity. Qed.

Lemma all_walked_Whole (l : list item) :
  all_walked (Whole None l) = all_walked_each l.
Proof. reflexivity. Qed.

Lemma info_seen_each (l : list item) :
  map info (seen_each l) = map item_info l.
Proof.
  induction l as [|[name|name content] l IH]; cbn; now rewrite ?IH.
Qed.

Lemma In_seen_each (l : list item) (name : string) (t : tree) :
  In (Subdir name t) (seen_each l) ->
  exists content, In (Sub name content) l /\ t = seen content.
Proof.
  induction l as [|[n|n c] l IH]; cbn [seen_each In].
  - contradiction.
  - intros [H|H]; [discriminate|].
    destruct (IH H) as [content [Hin Heq]]. exists content. now split; [right|].
  - intros [H|H].
    + injection H as -> <-. exists c. now split; [left|].
    + destruct (IH H) as [content [Hin Heq]].
      exists content. now split; [right|].
Qed.

Lemma held_Whole (failure : option os.error) (l : list item) (root : string) :
  held ReadDir (Whole failure l) root
  <-> ReadDir root = match failure with
                     | Some err => os.Err err
                     | None => os.Ok (map item_info l)
                     end
      /\ held_each ReadDir root l.
Proof.
  cbn [held].
  assert (Heach : forall l',
             (fix each (l : list item) : Prop :=
                match l with
                | [] => True
                | Plain _ :: l' => each l'
                | Sub name content :: l' =>
                    held ReadDir content (path.Join root name) /\ each l'
                end) l' <-> held_each ReadDir root l').
  { induction l' as [|[name|name content] l' IH]; cbn [held_each].
    - reflexivity.
    - exact IH.
    - now rewrite IH. }
  now rewrite Heach.
Qed.

Lemma held_each_In (root : string) (l : list item) (name : string)
  (content : whole) :
  held_each ReadDir root l ->
  In (Sub name content) l ->
  held ReadDir content (path.Join root name).
Proof.
  intros Hheld Hin.
  induction l as [|i l IH]; [contradiction|].
  destruct Hin as [->|Hin].
  - cbn [held_each] in Hheld. apply Hheld.
  - apply IH; trivial.
    destruct i as [n|n c]; cbn [held_each] in Hheld;
      [exact Hheld | apply Hheld].
Qed.

Lemma held_mounted (w : whole) :
  forall root, held ReadDir w root -> mounted ReadDir (seen w) root.
Proof.
  revert w. fix IH 1. intros [[err|] l] root Hheld;
    apply held_Whole in Hheld; destruct Hheld as [Hread Heach].
  - exact Hread.
  - rewrite seen_Whole. apply mounted_Directory. split.
    + now rewrite info_seen_each.
    + clear Hread.
      induction l as [|[name|name content] l IHl];
        cbn [seen_each mounted_each held_each] in *.
      * exact I.
      * now apply IHl.
      * destruct Heach as [Hhere Hrest]. split; [now apply IH | now apply IHl].
Qed.

(** [Explore] walks no more levels than the whole tree has, and all of them
    when every directory can be read and none is hidden. *)
Lemma levels_seen_le_depth (w : whole) :
  levels (seen w) <= depth w
  /\ (all_walked w = true -> levels (seen w) = depth w).
Proof.
  revert w. fix IH 1. intros [[err|] l].
  - rewrite depth_Whole. cbn [seen levels all_walked].
    split; [lia | discriminate].
  - rewrite seen_Whole, levels_Directory, depth_Whole, all_walked_Whole.
    assert (H : deepest (seen_each l) <= depth_each l
                /\ (all_walked_each l = true ->
                    deepest (seen_each l) = depth_each l)).
    { induction l as [|[name|name content] l IHl].
      - cbn. split; [lia | reflexivity].
      - exact IHl.
      - cbn [seen_each deepest depth_each all_walked_each].
        destruct (IH content) as [Hle Heq].
        destruct IHl as [Hles Heqs].
        destruct (IsHidden name); cbn [negb andb].
        + split; [lia | discriminate].
        + split; [lia|]. intros Hall.
          apply andb_prop in Hall. destruct Hall as [Hc Hrest].
          rewrite (Heq Hc), (Heqs Hrest). reflexivity. }
    destruct H as [Hle Heq]. split; [lia|].
    intros Hall. now rewrite (Heq Hall).
Qed.

(** C9, as amended.  On every finite directory tree that the file system
    holds at the root, each subdirectory at the path joined from the path
    of its directory and its name, [Explore] terminates: it returns its
    results on every call stack that has a frame for each level of
    directories it lists, the same results however many more frames there
    are, and on no smaller call stack.  The depth of its recursion is thus
    the depth of the tree of the directories it lists, those that are not
    hidden and not below a hidden directory or one that cannot be read,
    whatever that depth is; it is at most the depth of the whole tree, and
    equal to it when every directory can be read and none is hidden.  Each
    recursive call is made on the joined path of a subdirectory, which
    holds a tree of fewer levels. *)
Theorem Explore_terminates_on_trees (w : whole) (root : string) :
  held ReadDir w root ->
  (exists dirs files,
      forall frames,
        Explore ReadDir frames root
        = if Nat.ltb frames (levels (seen w)) then None
          else Some (dirs, files))
  /\ (forall name,
        In name (fst (Ls ReadDir root)) ->
        exists content,
          In (Sub name content) (items w)
          /\ held ReadDir content (path.Join root name)
          /\ levels (seen content) < levels (seen w))
  /\ levels (seen w) <= depth w
  /\ (all_walked w = true -> levels (seen w) = depth w).
Proof.
  intros Hheld.
  pose proof (held_mounted w root Hheld) as Hm.
  split; [|split; [|exact (levels_seen_le_depth w)]].
  - destruct (Explore_returns_from_levels (levels (seen w)) (seen w) root Hm
                (le_n _)) as [[dirs files] Hsub].
    exists dirs, files. intros frames.
    destruct (Nat.ltb_spec frames (levels (seen w))) as [Hlt|Hle].
    + exact (Explore_exhausts_below_levels frames (seen w) root Hm Hlt).
    + exact (Explore_frames_le ReadDir _ _ _ _ Hle Hsub).
  - intros name Hname. destruct w as [[err|] l].
    + apply held_Whole in Hheld. destruct Hheld as [Hread _].
      rewrite (Ls_Err _ _ _ Hread) in Hname. contradiction.
    + apply held_Whole in Hheld. destruct Hheld as [Hread Heach].
      rewrite <- info_seen_each in Hread.
      apply (Ls_dirs_of_tree _ _ _ Hread) in Hname.
      destruct Hname as [[t Hin] Hvis].
      destruct (In_seen_each _ _ _ Hin) as [content [Hitem ->]].
      exists content. repeat split.
      * exact Hitem.
      * exact (held_each_In _ _ _ _ Heach Hitem).
      * rewrite seen_Whole, levels_Directory.
        pose proof (deepest_In _ _ _ Hin Hvis). lia.
Qed.

End TreeFacts.

Lemma example_tree_mounted : mounted (example_fs ".") example_tree ".".
Proof.
  cbn [mounted example_tree map info].
  repeat first [split | reflexivity | exact I].
Qed.

Lemma example_whole_held : held (example_fs ".") example_whole ".".
Proof.
  cbn [held example_whole map item_info].
  repeat first [split | reflexivity | exact I].
Qed.

Lemma Explore_terminates_on_trees_witness :
  levels (seen example_whole) = 3
  /\ depth example_whole = 3
  /\ (exists dirs files,
         forall frames,
           Explore (example_fs ".") frames "."
           = if Nat.ltb frames 3 then None else Some (dirs, files))
  /\ exists content,
       In (Sub "a" content) (items example_whole)
       /\ held (example_fs ".") content (path.Join "." "a")
       /\ levels (seen content) < levels (seen example_whole).
Proof.
  destruct (Explore_terminates_on_trees (example_fs ".") example_whole "."
              example_whole_held) as [Hex [Hcall [_ Heq]]].
  split; [reflexivity | split; [symmetry; now apply Heq | split]].
  - exact Hex.
  - apply (Hcall "a"). now left.
Defined.

(** The depth of the recursion is not the depth of the tree, and a
    recursive call need not be on a subdirectory of the root.  The working
    copy is a tree of depth 3, by [.git/objects/], and [Explore] returns
    from it on a call stack of two frames.  The tree with [locked/], where
    nothing is hidden, has depth 4, and [Explore] returns from it on two
    frames as well.  From the root [link/..], whose subdirectory [dir/]
    holds [y], the recursive call is on the path cleaned to [dir], the
    directory of that name in the working directory, and lists [z]. *)
Lemma Explore_depth_is_not_tree_depth :
  (held repository_fs repository_whole "."
   /\ depth repository_whole = 3
   /\ Explore repository_fs 2 "." = Some (["src"], ["README"; "main.go"])
   /\ Explore repository_fs 1 "." = None)
  /\ (held locked_fs locked_whole "."
      /\ map IsHidden ["locked"; "inner"; "deep"] = [false; false; false]
      /\ depth locked_whole = 4
      /\ Explore locked_fs 2 "." = Some (["locked"], [])
      /\ Explore locked_fs 1 "." = None)
  /\ (linked_fs "link/.." = os.Ok [dir "dir"; file "k"]
      /\ linked_fs "link/../dir" = os.Ok [file "y"]
      /\ path.Join "link/.." "dir" = "dir"
      /\ Explore linked_fs 2 "link/.." = Some (["dir"], ["k"; "z"])).
Proof.
  split; [|split].
  - split; [|repeat split].
    cbn [held repository_whole map item_info].
    repeat first [split | reflexivity | exact I].
  - split; [|repeat split].
    cbn [held locked_whole map item_info].
    repeat first [split | reflexivity | exact I].
  - repeat split.
Qed.

(** ** Paths of the results *)

(** C1. On the specification's example the directory result holds [a] and
    [a/b] when the root is [.], but the file result holds the bare names
    [f1] and [f2], not the paths [a/f1] and [a/b/f2]: lines 86-88 and 94-96
    append each file name as it is, without joining it to the directory it
    was read in.  For another root the directory result carries the root as
    a prefix, as [path.Join(root, dir)] builds it. *)
Theorem Explore_files_are_bare_names :
  Explore (example_fs ".") 3 "." = Some (["a"; "a/b"], ["f1"; "f2"])
  /\ Explore (example_fs "/srv/www") 3 "/srv/www"
     = Some (["/srv/www/a"; "/srv/www/a/b"], ["f1"; "f2"]).
Proof. split; reflexivity. Qed.

(** C5. Two directories that each hold a file [f]: the file result lists
    the name [f] twice, for [a/f] and for [b/f], since file names are not
    joined to the directory they were read in. *)
Theorem Explore_repeats_file_names :
  Explore twins_fs 2 "." = Some (["a"; "b"], ["f"; "f"])
  /\ ~ NoDup ["f"; "f"].
Proof.
  split; [reflexivity|].
  intros H. inversion H as [|x l Hnotin _]. apply Hnotin. now left.
Qed.

(** * Further properties of the package *)

(** ** [IsDir] and [IsExist] *)

(** [IsDir] answers [true] exactly when [os.Stat] finds the target and
    reports a directory, so it answers [false] for every target [os.Stat]
    cannot reach, whatever the error; and [IsExist] answers [false] for
    every target [IsDir] answers [true] for: the two are never both
    [true]. *)
Theorem IsDir_true_iff_found_directory
  (Stat : string -> os.result os.FileInfo) (target : string) :
  (IsDir Stat target = true <->
   exists found, Stat target = os.Ok found /\ os.IsDir found = true)
  /\ (forall err, Stat target = os.Err err -> IsDir Stat target = false)
  /\ (IsDir Stat target = true -> IsExist Stat target = false)
  /\ (IsExist Stat target = true -> IsDir Stat target = false).
Proof.
  unfold IsDir, IsExist.
  destruct (Stat target) as [found|err]; cbn [os.err_of os.IsNotExist].
  - repeat split; try discriminate.
    + intros H. now exists found.
    + intros [found' [Heq H]]. now injection Heq as <-.
  - repeat split; try discriminate.
    intros [found [Heq _]]. discriminate.
Qed.

Lemma IsDir_true_iff_found_directory_witness :
  IsDir (fun _ => os.Ok (dir "src")) "src" = true
  /\ IsExist (fun _ => os.Ok (dir "src")) "src" = false
  /\ IsDir stat_fs "locked/secret" = false.
Proof.
  destruct (IsDir_true_iff_found_directory (fun _ => os.Ok (dir "src")) "src")
    as [[_ Hdir] [_ [Hexist _]]].
  destruct (IsDir_true_iff_found_directory stat_fs "locked/secret")
    as [_ [Herr _]].
  assert (H : IsDir (fun _ => os.Ok (dir "src")) "src" = true).
  { apply Hdir. exists (dir "src"). split; reflexivity. }
  split; [exact H | split; [exact (Hexist H) |]].
  apply (Herr os.EACCES). reflexivity.
Defined.

(** ** More on [Ls] *)

Lemma filter_visible_length (directory : list os.FileInfo) :
  length (filter listed_dir directory) + length (filter listed_file directory)
  = length (filter (fun element => negb (IsHidden (os.Name element)))
                   directory).
Proof.
  induction directory as [|element rest IH]; [reflexivity|].
  cbn [filter]. unfold listed_dir at 1, listed_file at 1.
  destruct (IsHidden (os.Name element)); cbn [negb andb]; [exact IH|].
  destruct (os.IsDir element); cbn [negb length]; lia.
Qed.

(** Whatever a directory holds, [Ls] returns the names of its entries that
    are not hidden, in the order read: the directories among them as its
    first result and the others as its second.  So the two results hold as
    many names as the directory has entries that are not hidden. *)
Theorem Ls_keeps_order_and_drops_hidden
  (ReadDir : string -> os.result (list os.FileInfo))
  (target : string) (directory : list os.FileInfo) :
  ReadDir target = os.Ok directory ->
  fst (Ls ReadDir target)
  = map os.Name
        (filter os.IsDir
                (filter (fun element => negb (IsHidden (os.Name element)))
                        directory))
  /\ snd (Ls ReadDir target)
     = map os.Name
           (filter (fun element => negb (os.IsDir element))
                   (filter (fun element => negb (IsHidden (os.Name element)))
                           directory))
  /\ length (fst (Ls ReadDir target)) + length (snd (Ls ReadDir target))
     = length (filter (fun element => negb (IsHidden (os.Name element)))
                      directory).
Proof.
  intros Hread. rewrite (Ls_Ok _ _ _ Hread). cbn [fst snd].
  assert (Hd : forall l, filter os.IsDir
                 (filter (fun e => negb (IsHidden (os.Name e))) l)
               = filter listed_dir l).
  { induction l as [|e l IH]; [reflexivity|]. cbn [filter].
    unfold listed_dir at 1.
    destruct (IsHidden (os.Name e)); cbn [negb andb filter]; [exact IH|].
    destruct (os.IsDir e); now rewrite IH. }
  assert (Hf : forall l, filter (fun e => negb (os.IsDir e))
                 (filter (fun e => negb (IsHidden (os.Name e))) l)
               = filter listed_file l).
  { induction l as [|e l IH]; [reflexivity|]. cbn [filter].
    unfold listed_file at 1.
    destruct (IsHidden (os.Name e)); cbn [negb andb filter]; [exact IH|].
    destruct (os.IsDir e); cbn [negb]; now rewrite IH. }
  rewrite Hd, Hf, !length_map. repeat split.
  apply filter_visible_length.
Qed.

Lemma Ls_keeps_order_and_drops_hidden_witness :
  Ls (example_fs ".") "a" = (["b"], ["f1"]) /\ 1 + 1 = 2.
Proof.
  destruct (Ls_keeps_order_and_drops_hidden (example_fs ".") "a"
              [file ".hidden"; dir "b"; file "f1"] eq_refl)
    as [Hd [Hf Hn]].
  split; [|exact Hn].
  rewrite (surjective_pairing (Ls (example_fs ".") "a")), Hd, Hf.
  reflexivity.
Defined.

Lemma Ls_hidden_only_witness :
  Ls (table [(".", [dir ".git"; file ".gitignore"])]) "." = ([], []).
Proof.
  apply (Ls_hidden_only _ "." [dir ".git"; file ".gitignore"]).
  - reflexivity.
  - intros element Hin. cbn in Hin.
    repeat (destruct Hin as [<-|Hin]; [reflexivity|]). contradiction.
Defined.

(** ** More on [Explore] *)

(** [Explore] leaves out nothing it reads: for the root and for each
    directory it lists, every subdirectory [Ls] returns there is listed
    under its joined path, and every file name [Ls] returns there is in the
    file result. *)
Theorem Explore_lists_all_it_reads
  (ReadDir : string -> os.result (list os.FileInfo))
  (frames : nat) (root : string) (dirs files : list string) :
  Explore ReadDir frames root = Some (dirs, files) ->
  forall parent, parent = root \/ In parent dirs ->
    (forall name, In name (fst (Ls ReadDir parent)) ->
                  In (path.Join parent name) dirs)
    /\ (forall f, In f (snd (Ls ReadDir parent)) -> In f files).
Proof.
  intros Hex.
  assert (Hroot : forall n r ds fs,
             Explore ReadDir n r = Some (ds, fs) ->
             (forall name, In name (fst (Ls ReadDir r)) ->
                           In (path.Join r name) ds)
             /\ (forall f, In f (snd (Ls ReadDir r)) -> In f fs)).
  { intros [|n] r ds fs H; [discriminate|].
    destruct (Explore_S_inv _ _ _ _ _ H) as [_ [-> ->]]. split.
    - intros name Hname. apply in_flat_map. exists name.
      split; [exact Hname | now left].
    - intros f Hf. apply in_or_app. now left. }
  intros parent [->|Hin].
  - exact (Hroot _ _ _ _ Hex).
  - destruct (Explore_below_listed _ _ _ _ _ _ Hex Hin)
      as [below [belowFiles [Hsub [[b1 [a1 ->]] [b2 [a2 ->]]]]]].
    destruct (Hroot _ _ _ _ Hsub) as [Hd Hf]. split.
    + intros name Hname. apply in_or_app. right. right.
      apply in_or_app. left. now apply Hd.
    + intros f Hfile. apply in_or_app. right.
      apply in_or_app. left. now apply Hf.
Qed.

Lemma Explore_lists_all_it_reads_witness :
  In (path.Join "a" "b") ["a"; "a/b"; "c"]
  /\ In "f1" ["f0"; "f1"; "f2"; "f3"].
Proof.
  destruct (Explore_lists_all_it_reads siblings_fs 3 "."
              ["a"; "a/b"; "c"] ["f0"; "f1"; "f2"; "f3"] eq_refl "a")
    as [Hd Hf].
  - right. now left.
  - split; [apply (Hd "b") | apply (Hf "f1")]; now left.
Defined.

(** *** [Explore] on a tree *)

Lemma walk_dirs_Directory (es : list entry) (root : string) :
  walk_dirs (Directory es) root = walk_dirs_each root es.
Proof.
  cbn [walk_dirs].
  induction es as [|[name|name content] es IH]; cbn [walk_dirs_each].
  - reflexivity.
  - exact IH.
  - now rewrite IH.
Qed.

Lemma walk_files_Directory (es : list entry) :
  walk_files (Directory es) = own_files es ++ files_below es.
Proof. reflexivity. Qed.

Lemma Ls_of_tree
  (ReadDir : string -> os.result (list os.FileInfo))
  (root : string) (es : list entry) :
  ReadDir root = os.Ok (map info es) ->
  Ls ReadDir root = (listed_subdirs es, own_files es).
Proof.
  intros Hread. rewrite (Ls_Ok _ _ _ Hread). clear Hread.
  induction es as [|[name|name content] es IH]; [reflexivity| |];
    cbn [map info filter listed_subdirs own_files];
    unfold listed_dir at 1, listed_file at 1; cbn [file dir os.Name os.IsDir];
    injection IH as IHd IHf;
    destruct (IsHidden name); cbn [negb andb map os.Name file dir];
    now rewrite IHd, IHf.
Qed.

(** The loop over the subdirectories of a tree's directory, when each
    recursive call returns the walk of the subdirectory. *)
Lemma walk_each
  (explore : string -> option (list string * list string))
  (root : string) (es : list entry) :
  (forall d c, In (Subdir d c) es -> IsHidden d = false ->
     explore (path.Join root d)
     = Some (walk_dirs c (path.Join root d), walk_files c)) ->
  forallb (returned explore root) (listed_subdirs es) = true
  /\ flat_map (emitted_dirs explore root) (listed_subdirs es)
     = walk_dirs_each root es
  /\ flat_map (emitted_files explore root) (listed_subdirs es)
     = files_below es.
Proof.
  induction es as [|[name|name content] es IH]; intros Hsub.
  - repeat split.
  - cbn [listed_subdirs walk_dirs_each files_below].
    apply IH. intros d c Hin. apply Hsub. now right.
  - cbn [listed_subdirs walk_dirs_each files_below].
    destruct IH as [IH1 [IH2 IH3]].
    { intros d c Hin. apply Hsub. now right. }
    destruct (IsHidden name) eqn:Hname; [now repeat split|].
    cbn [forallb flat_map].
    unfold returned at 1, emitted_dirs at 1, emitted_files at 1.
    rewrite (Hsub name content (or_introl eq_refl) Hname).
    rewrite IH1, IH2, IH3. repeat split.
Qed.

Lemma Explore_walks
  (ReadDir : string -> os.result (list os.FileInfo)) (n : nat) :
  forall t root,
    mounted ReadDir t root -> levels t <= n ->
    Explore ReadDir n root = Some (walk_dirs t root, walk_files t).
Proof.
  induction n as [|n IH]; intros t root Hm Hlevels.
  - pose proof (levels_pos t). lia.
  - rewrite Explore_S. destruct t as [err|es].
    + cbn [mounted] in Hm. rewrite (Ls_Err _ _ _ Hm). reflexivity.
    + apply mounted_Directory in Hm. destruct Hm as [Hread Heach].
      rewrite levels_Directory in Hlevels.
      rewrite (Ls_of_tree _ _ _ Hread). cbn [fst snd].
      destruct (walk_each (Explore ReadDir n) root es) as [H1 [H2 H3]].
      { intros d c Hin Hvis. apply IH.
        - exact (mounted_each_In _ _ _ _ _ Heach Hin).
        - pose proof (deepest_In _ _ _ Hin Hvis). lia. }
      now rewrite H1, H2, H3, walk_dirs_Directory, walk_files_Directory.
Qed.

(** On a finite tree held at the root, [Explore] returns the pre-order
    listing of the tree, on every call stack with a frame per level walked:
    the joined path of each directory that is not hidden nor below a hidden
    one, each followed by the directories below it, and the bare names of
    the files that are not hidden, those of a directory before those below
    its subdirectories. *)
Theorem Explore_is_preorder_walk
  (ReadDir : string -> os.result (list os.FileInfo))
  (t : tree) (root : string) (frames : nat) :
  mounted ReadDir t root ->
  levels t <= frames ->
  Explore ReadDir frames root = Some (walk_dirs t root, walk_files t).
Proof.
  intros Hm Hlevels. now apply Explore_walks.
Qed.

Lemma repository_tree_mounted : mounted repository_fs repository_tree ".".
Proof.
  cbn [mounted repository_tree map info].
  repeat first [split | reflexivity | exact I].
Qed.

Lemma Explore_is_preorder_walk_witness :
  Explore repository_fs 2 "." = Some (["src"], ["README"; "main.go"])
  /\ Explore (example_fs ".") 3 "." = Some (["a"; "a/b"], ["f1"; "f2"]).
Proof.
  split.
  - apply (Explore_is_preorder_walk repository_fs repository_tree "." 2).
    + exact repository_tree_mounted.
    + cbn. lia.
  - apply (Explore_is_preorder_walk (example_fs ".") example_tree "." 3).
    + exact example_tree_mounted.
    + cbn. lia.
Defined.

(** ** [Cp] and [WriteFile] *)

(** *** The directory part of a target *)

Lemma substring_whole (s : string) : substring 0 (String.length s) s = s.
Proof.
  induction s as [|c s IH]; [reflexivity|]. cbn. now rewrite IH.
Qed.

Lemma Split_String (b : ascii) (rest : string) :
  Split (String b rest)
  = match LastIndexByte rest path.slash with
    | Some _ => (String b (fst (Split rest)), snd (Split rest))
    | None => if Ascii.eqb b path.slash then (String b "", rest)
              else ("", String b rest)
    end.
Proof.
  unfold Split. cbn [LastIndexByte].
  destruct (LastIndexByte rest path.slash) as [i|].
  - reflexivity.
  - destruct (Ascii.eqb b path.slash).
    + cbn. now rewrite substring_0_0, Nat.sub_0_r, substring_whole.
    + cbn. now rewrite substring_whole.
Qed.

Lemma Split_no_slash (p : string) :
  LastIndexByte p path.slash = None -> Split p = ("", p).
Proof.
  intros H. unfold Split. rewrite H. cbn [fst snd].
  now rewrite substring_0_0, Nat.sub_0_r, substring_whole.
Qed.

(** [path.Split] cuts the path in two: the file part holds no slash, and
    the directory part is empty, when the path holds no slash, or ends in
    the last one. *)
Lemma Split_parts (p : string) :
  p = String.append (fst (Split p)) (snd (Split p))
  /\ LastIndexByte (snd (Split p)) path.slash = None
  /\ (LastIndexByte p path.slash = None -> fst (Split p) = "")
  /\ (LastIndexByte p path.slash <> None ->
      exists d, fst (Split p) = String.append d "/").
Proof.
  induction p as [|b rest [IH1 [IH2 [IH3 IH4]]]].
  - repeat split. intros H. now elim H.
  - rewrite Split_String. cbn [LastIndexByte].
    destruct (LastIndexByte rest path.slash) as [i|] eqn:Hrest; cbn [fst snd].
    + repeat split.
      * cbn [String.append]. now rewrite <- IH1.
      * exact IH2.
      * discriminate.
      * intros _. destruct IH4 as [d Hd]; [discriminate|].
        exists (String b d). cbn [String.append]. now rewrite Hd.
    + destruct (Ascii.eqb_spec b path.slash) as [->|Hb]; cbn [fst snd].
      * repeat split; trivial; try discriminate.
        intros _. now exists "".
      * repeat split; trivial.
        -- cbn [LastIndexByte]. rewrite Hrest.
           now rewrite (proj2 (Ascii.eqb_neq b path.slash) Hb).
        -- intros H. now elim H.
Qed.

(** *** The runs of the two commands *)

Lemma run_Cp (sys : system) (perm : FileMode) (source target : string)
  (n : nat) :
  run sys (Cp perm source target) n =
  match sys _ n (os_Open source) with
  | os.Err e => ([Event (os_Open source) (os.Err e)], Some e)
  | os.Ok f =>
      let dir := fst (Split target) in
      match sys _ (S n) (os_MkdirAll dir perm) with
      | Some e =>
          ([Event (os_Open source) (os.Ok f);
            Event (os_MkdirAll dir perm) (Some e);
            Event (File_Close f) (sys _ (2 + n) (File_Close f))], Some e)
      | None =>
          match sys _ (2 + n) (os_Create target) with
          | os.Err e =>
              ([Event (os_Open source) (os.Ok f);
                Event (os_MkdirAll dir perm) None;
                Event (os_Create target) (os.Err e);
                Event (File_Close f) (sys _ (3 + n) (File_Close f))], Some e)
          | os.Ok g =>
              ([Event (os_Open source) (os.Ok f);
                Event (os_MkdirAll dir perm) None;
                Event (os_Create target) (os.Ok g);
                Event (io_Copy g f) (sys _ (3 + n) (io_Copy g f));
                Event (File_Close g) (sys _ (4 + n) (File_Close g));
                Event (File_Close f) (sys _ (5 + n) (File_Close f))],
               snd (sys _ (3 + n) (io_Copy g f)))
          end
      end
  end.
Proof.
  unfold Cp, deferring. cbn [run].
  destruct (sys (os.result fd) n (os_Open source)) as [f|e]; [|reflexivity].
  destruct (Split target) as [dir file]. cbn [fst bind run].
  destruct (sys (option os.error) (S n) (os_MkdirAll dir perm)) as [e|].
  - reflexivity.
  - cbn [bind run plus].
    destruct (sys (os.result fd) (S (S n)) (os_Create target)) as [g|e];
      [|reflexivity].
    cbn [bind run].
    destruct (sys (nat * option os.error)%type (S (S (S n))) (io_Copy g f))
      as [w err].
    reflexivity.
Qed.

(** Whatever the system answers, [Cp] closes the files it has opened, each
    once, the last opened first, and closes no other file: the files closed
    in a run are those opened in it, in reverse order. *)
Theorem Cp_closes_the_files_it_opens
  (sys : system) (perm : FileMode) (source target : string) (n : nat) :
  flat_map closes (fst (run sys (Cp perm source target) n))
  = rev (flat_map opens (fst (run sys (Cp perm source target) n))).
Proof.
  rewrite run_Cp.
  destruct (sys (os.result fd) n (os_Open source)) as [f|e]; [|reflexivity].
  cbv zeta.
  destruct (sys (option os.error) (S n) (os_MkdirAll _ perm)) as [e|];
    [reflexivity|].
  destruct (sys (os.result fd) (2 + n) (os_Create target)) as [g|e];
    reflexivity.
Qed.



(** [Cp] returns no error exactly when the source is opened, the directory
    of the target made, the target created and the copy done without one;
    the error it returns is then that of the first of these to fail.  What
    closing the two files returns is never reported: two systems that
    differ only in their answers to [Close] make [Cp] return the same. *)
Theorem Cp_reports_no_close_failure
  (sys : system) (perm : FileMode) (source target : string) (n : nat) :
  (snd (run sys (Cp perm source target) n) = None <->
   exists f g written,
     sys _ n (os_Open source) = os.Ok f
     /\ sys _ (1 + n) (os_MkdirAll (fst (Split target)) perm) = None
     /\ sys _ (2 + n) (os_Create target) = os.Ok g
     /\ sys _ (3 + n) (io_Copy g f) = (written, None))
  /\ (forall sys' : system,
        (forall R m (c : call R), is_Close c = false -> sys' R m c = sys R m c) ->
        snd (run sys' (Cp perm source target) n)
        = snd (run sys (Cp perm source target) n)).
Proof.
  split.
  - rewrite run_Cp. cbv zeta.
    destruct (sys (os.result fd) n (os_Open source)) as [f|e].
    + cbn [plus].
      destruct (sys (option os.error) (S n) (os_MkdirAll _ perm)) as [e|].
      * split; [discriminate|]. intros [f' [g [w [_ [H _]]]]]. discriminate.
      * destruct (sys (os.result fd) (S (S n)) (os_Create target)) as [g|e].
        -- destruct (sys (nat * option os.error)%type (S (S (S n)))
                         (io_Copy g f)) as [w err] eqn:Hcopy.
           cbn [snd]. split.
           ++ intros ->. now exists f, g, w.
           ++ intros [f' [g' [w' [Hf [_ [Hg Hc]]]]]].
              injection Hf as <-. injection Hg as <-.
              rewrite Hcopy in Hc. now injection Hc.
        -- split; [discriminate|].
           intros [f' [g [w [_ [_ [H _]]]]]]. discriminate.
    + split; [discriminate|]. intros [f [g [w [H _]]]]. discriminate.
  - intros sys' Hsame. rewrite !run_Cp. cbv zeta.
    rewrite (Hsame _ n (os_Open source) eq_refl).
    destruct (sys (os.result fd) n (os_Open source)) as [f|e]; [|reflexivity].
    rewrite (Hsame _ (S n) (os_MkdirAll (fst (Split target)) perm) eq_refl).
    destruct (sys (option os.error) (S n) (os_MkdirAll _ perm)) as [e|];
      [reflexivity|].
    rewrite (Hsame _ (2 + n) (os_Create target) eq_refl).
    destruct (sys (os.result fd) (2 + n) (os_Create target)) as [g|e];
      [|reflexivity].
    cbn [snd]. now rewrite (Hsame _ (3 + n) (io_Copy g f) eq_refl).
Qed.

Lemma Cp_reports_no_close_failure_witness :
  snd (run obliging (Cp DefaultPerm_0750 "notes.txt" "backup/notes.txt") 0)
  = None.
Proof.
  destruct (Cp_reports_no_close_failure obliging DefaultPerm_0750
              "notes.txt" "backup/notes.txt" 0) as [[_ Hdone] _].
  apply Hdone. exists 0, 2, 0. repeat split.
Defined.

(** [WriteFile] first asks for the directory of the target to be made, with
    the mode [DefaultPerm]: the target up to and including its last slash,
    the empty path when the target holds no slash.  It writes the data, to
    the target and with the same mode, only when that succeeded, and
    returns the error of the call that failed. *)
Theorem WriteFile_makes_the_directory_first
  (sys : system) (perm : FileMode) (target : string)
  (data : list Byte.byte) (n : nat) :
  exists dir file,
    target = String.append dir file
    /\ LastIndexByte file path.slash = None
    /\ (LastIndexByte target path.slash = None -> dir = "")
    /\ (LastIndexByte target path.slash <> None ->
        exists d, dir = String.append d "/")
    /\ run sys (WriteFile perm target data) n
       = match sys _ n (os_MkdirAll dir perm) with
         | Some e => ([Event (os_MkdirAll dir perm) (Some e)], Some e)
         | None =>
             ([Event (os_MkdirAll dir perm) None;
               Event (ioutil_WriteFile target data perm)
                     (sys _ (1 + n) (ioutil_WriteFile target data perm))],
              sys _ (1 + n) (ioutil_WriteFile target data perm))
         end.
Proof.
  destruct (Split_parts target) as [H1 [H2 [H3 H4]]].
  exists (fst (Split target)), (snd (Split target)).
  repeat split; trivial.
  unfold WriteFile. destruct (Split target) as [dir file]. cbn [fst run].
  destruct (sys (option os.error) n (os_MkdirAll dir perm)) as [e|];
    reflexivity.
Qed.

(** ** The paths of the directory result *)

(** *** Splitting at slashes *)

Lemma append_empty_r (s : string) : String.append s "" = s.
Proof. induction s as [|c s IH]; [reflexivity|]. cbn. now rewrite IH. Qed.

Lemma append_assoc (s1 s2 s3 : string) :
  String.append (String.append s1 s2) s3
  = String.append s1 (String.append s2 s3).
Proof. induction s1 as [|c s1 IH]; [reflexivity|]. cbn. now rewrite IH. Qed.

Lemma split_acc_slash_free (d elem : string) :
  slash_free d = true -> path.split_acc d elem = [String.append elem d].
Proof.
  revert elem.
  induction d as [|c d IH]; intros elem H; cbn [path.split_acc].
  - now rewrite append_empty_r.
  - cbn [slash_free] in H. apply andb_prop in H. destruct H as [Hc Hd].
    apply negb_true_iff in Hc. rewrite Hc, (IH _ Hd), append_assoc.
    reflexivity.
Qed.

Lemma split_acc_append (p q elem : string) :
  path.split_acc (String.append p (String path.slash q)) elem
  = path.split_acc p elem ++ path.split_acc q "".
Proof.
  revert elem.
  induction p as [|c p IH]; intros elem; cbn [String.append path.split_acc].
  - now rewrite Ascii.eqb_refl.
  - destruct (Ascii.eqb c path.slash); now rewrite IH.
Qed.

Lemma split_acc_elements_slash_free (p elem : string) :
  slash_free elem = true ->
  Forall (fun e => slash_free e = true) (path.split_acc p elem).
Proof.
  revert elem.
  induction p as [|c p IH]; intros elem H; cbn [path.split_acc].
  - now constructor.
  - destruct (Ascii.eqb c path.slash) eqn:Hc.
    + constructor; [exact H | now apply IH].
    + apply IH. clear IH.
      induction elem as [|e elem IHe]; cbn.
      * now rewrite Hc.
      * cbn in H. apply andb_prop in H. destruct H as [He Helem].
        now rewrite He, (IHe Helem).
Qed.

Lemma split_concat (x : string) (l : list string) :
  Forall (fun e => slash_free e = true) (x :: l) ->
  path.split (String.concat "/" (x :: l)) = x :: l.
Proof.
  revert x.
  induction l as [|y l IH]; intros x H.
  - cbn [String.concat]. unfold path.split.
    rewrite split_acc_slash_free; [reflexivity | now inversion H].
  - inversion H as [|? ? Hx Hrest]. subst.
    change (String.concat "/" (x :: y :: l))
      with (String.append x (String path.slash (String.concat "/" (y :: l)))).
    unfold path.split. rewrite split_acc_append.
    rewrite (split_acc_slash_free x "" Hx). cbn [String.append app].
    f_equal. exact (IH y Hrest).
Qed.

Lemma rooted_concat (x : string) (l : list string) :
  x <> "" -> slash_free x = true ->
  rooted (String.concat "/" (x :: l)) = false.
Proof.
  intros Hne Hx. destruct x as [|c x]; [now elim Hne|].
  cbn [slash_free] in Hx. apply andb_prop in Hx. destruct Hx as [Hc _].
  apply negb_true_iff in Hc.
  destruct l; cbn; exact Hc.
Qed.

(** *** The elements [path.Clean] keeps *)

Lemma Clean_render (p : string) :
  p <> "" -> path.Clean p = render (rooted p) (elements p).
Proof.
  destruct p as [|c p]; [intros H; now elim H | reflexivity].
Qed.

Lemma ups_tidy (kept : list string) :
  Forall (eq "..") kept -> tidy false kept.
Proof.
  induction 1 as [|x kept <- Hrest IH]; [constructor|].
  now apply tidy_up.
Qed.

Lemma tidy_tail (b : bool) (x : string) (kept : list string) :
  tidy b (x :: kept) -> tidy b kept.
Proof.
  inversion 1 as [|? Hb Hups|]; subst; trivial.
  now apply ups_tidy.
Qed.

(** A name is put on top of the elements kept. *)
Lemma clean_elem_name (b : bool) (out : list string) (name : string) :
  name <> "" -> name <> "." -> name <> ".." ->
  path.clean_elem b out name = name :: out.
Proof.
  intros H1 H2 H3. unfold path.clean_elem.
  apply String.eqb_neq in H1, H2, H3. now rewrite H1, H2, H3.
Qed.

Lemma clean_elem_tidy (b : bool) (out : list string) (elem : string) :
  tidy b out -> slash_free elem = true ->
  tidy b (path.clean_elem b out elem).
Proof.
  intros Hout Hfree. unfold path.clean_elem.
  destruct (String.eqb_spec elem "") as [->|Hne]; [exact Hout|].
  destruct (String.eqb_spec elem ".") as [->|Hdot]; [exact Hout|].
  cbn [orb].
  destruct (String.eqb_spec elem "..") as [->|Hup].
  - destruct out as [|top below].
    + destruct b eqn:Hb; [constructor|].
      apply tidy_up; [reflexivity | constructor].
    + destruct (String.eqb_spec top "..") as [->|Htop].
      * inversion Hout as [|? Hb Hups|? ? _ _ _ Hbad _]; subst.
        -- apply tidy_up; [reflexivity | now constructor].
        -- now elim Hbad.
      * exact (tidy_tail _ _ _ Hout).
  - now apply tidy_name.
Qed.

Lemma fold_clean_tidy (b : bool) (l out : list string) :
  tidy b out -> Forall (fun e => slash_free e = true) l ->
  tidy b (fold_left (path.clean_elem b) l out).
Proof.
  revert out.
  induction l as [|e l IH]; intros out Hout Hl; [exact Hout|].
  inversion Hl; subst. cbn [fold_left].
  apply IH; [now apply clean_elem_tidy | assumption].
Qed.

Lemma elements_tidy (p : string) : tidy (rooted p) (elements p).
Proof.
  apply fold_clean_tidy; [constructor|].
  now apply split_acc_elements_slash_free.
Qed.

Lemma tidy_slash_free (b : bool) (kept : list string) :
  tidy b kept -> Forall (fun e => slash_free e = true) kept.
Proof.
  induction 1 as [|kept _ Hups|name kept Hfree _ _ _ _ IH].
  - constructor.
  - constructor; [reflexivity|].
    eapply Forall_impl; [|exact Hups]. now intros e <-.
  - now constructor.
Qed.

Lemma tidy_nonempty (b : bool) (kept : list string) :
  tidy b kept -> Forall (fun e => e <> "") kept.
Proof.
  induction 1 as [|kept _ Hups|name kept _ Hne _ _ _ IH].
  - constructor.
  - constructor; [discriminate|].
    eapply Forall_impl; [|exact Hups]. intros e <-. discriminate.
  - now constructor.
Qed.

(** Cleaning the elements kept, first one first, keeps them all. *)
Lemma fold_clean_replay (b : bool) (kept : list string) :
  tidy b kept -> fold_left (path.clean_elem b) (rev kept) [] = kept.
Proof.
  induction kept as [|x kept IH]; intros Htidy; [reflexivity|].
  cbn [rev]. rewrite fold_left_app, (IH (tidy_tail _ _ _ Htidy)).
  cbn [fold_left].
  inversion Htidy as [|? Hb Hups|? ? _ H1 H2 H3 _]; subst.
  - unfold path.clean_elem. cbn [String.eqb Ascii.eqb orb].
    destruct Hups as [|top below <- _]; reflexivity.
  - now apply clean_elem_name.
Qed.

Lemma render_rooted_elements (b : bool) (kept : list string) :
  tidy b kept -> (b = false -> kept <> []) ->
  rooted (render b kept) = b /\ elements (render b kept) = kept.
Proof.
  intros Htidy Hne.
  pose proof (tidy_slash_free _ _ Htidy) as Hfree.
  pose proof (tidy_nonempty _ _ Htidy) as Hnonempty.
  apply Forall_rev in Hfree, Hnonempty.
  pose proof (fold_clean_replay _ _ Htidy) as Hreplay.
  unfold elements, render.
  destruct b.
  - split; [reflexivity|]. cbn [rooted String.append].
    rewrite Ascii.eqb_refl.
    unfold path.split. cbn [path.split_acc]. rewrite Ascii.eqb_refl.
    cbn [fold_left]. change (path.clean_elem true [] "") with (@nil string).
    destruct (rev kept) as [|x l] eqn:Hrev.
    + cbn. apply (f_equal (@rev string)) in Hrev.
      rewrite rev_involutive in Hrev. now subst.
    + fold (path.split (String.concat "/" (x :: l))).
      rewrite (split_concat x l Hfree). exact Hreplay.
  - destruct (rev kept) as [|x l] eqn:Hrev.
    + apply (f_equal (@rev string)) in Hrev.
      rewrite rev_involutive in Hrev. now elim (Hne eq_refl).
    + rewrite (rooted_concat x l (Forall_inv Hnonempty) (Forall_inv Hfree)).
      split; [reflexivity|].
      rewrite (split_concat x l Hfree). exact Hreplay.
Qed.

(** *** Joining a name to a path *)

Lemma listable_name (d : string) :
  listable d -> d <> "" /\ d <> "." /\ d <> "..".
Proof.
  intros [Hne [_ Hvis]]. repeat split; trivial; intros ->; discriminate.
Qed.

Lemma listable_tidy (b : bool) (d : string) (kept : list string) :
  listable d -> tidy b kept -> tidy b (d :: kept).
Proof.
  intros Hd Hkept. destruct (listable_name d Hd) as [H1 [H2 H3]].
  destruct Hd as [_ [Hfree _]]. now apply tidy_name.
Qed.

(** [path.Join] of a path and a name prints the elements kept of the path
    with the name on top. *)
Lemma Join_render (r d : string) :
  listable d -> path.Join r d = render (rooted r) (d :: elements r).
Proof.
  intros Hd. destruct (listable_name d Hd) as [H1 [H2 H3]].
  pose proof Hd as [_ [Hfree _]].
  destruct d as [|c d]; [now elim H1|].
  destruct r as [|cr r].
  - cbn [path.Join]. rewrite Clean_render by discriminate.
    assert (Hel : elements (String c d) = [String c d]).
    { unfold elements, path.split.
      rewrite (split_acc_slash_free _ "" Hfree). cbn [String.append fold_left].
      now apply clean_elem_name. }
    rewrite Hel.
    assert (Hroot : rooted (String c d) = false).
    { cbn [slash_free] in Hfree. apply andb_prop in Hfree.
      destruct Hfree as [Hc _]. now apply negb_true_iff in Hc. }
    now rewrite Hroot.
  - cbn [path.Join]. rewrite Clean_render by discriminate.
    change (String.append "/" (String c d)) with (String path.slash (String c d)).
    assert (Hroot : rooted (String.append (String cr r)
                                          (String path.slash (String c d)))
                    = rooted (String cr r)) by reflexivity.
    unfold elements at 1. rewrite Hroot. unfold path.split.
    rewrite split_acc_append, (split_acc_slash_free _ "" Hfree).
    cbn [String.append]. rewrite fold_left_app. cbn [fold_left].
    fold (path.split (String cr r)). fold (elements (String cr r)).
    now rewrite clean_elem_name.
Qed.

Lemma Join_elements (r d : string) :
  listable d ->
  rooted (path.Join r d) = rooted r
  /\ elements (path.Join r d) = d :: elements r.
Proof.
  intros Hd. rewrite (Join_render r d Hd).
  apply render_rooted_elements.
  - apply listable_tidy; [exact Hd | apply elements_tidy].
  - discriminate.
Qed.

(** *** No directory is listed twice *)

Lemma same_tail_same_name (xs ys kept : list string) (d d' : string) :
  xs ++ d :: kept = ys ++ d' :: kept -> d = d'.
Proof.
  intros H.
  change (d :: kept) with ([d] ++ kept) in H.
  change (d' :: kept) with ([d'] ++ kept) in H.
  rewrite !app_assoc in H. apply app_inv_tail in H.
  now apply app_inj_tail in H.
Qed.

Lemma well_named_Directory (es : list entry) :
  well_named (Directory es)
  <-> NoDup (listed_subdirs es) /\ well_named_each es.
Proof. reflexivity. Qed.

(** The elements of a directory listed below [r] are those of [r] under
    the names on the way down, the first of them a subdirectory of [r]. *)
Lemma walk_dirs_elements (t : tree) :
  forall r q,
    well_named t -> In q (walk_dirs t r) ->
    exists xs d, elements q = xs ++ d :: elements r.
Proof.
  revert t. fix IH 1. intros [err|es] r q Hnamed Hq.
  - contradiction.
  - rewrite walk_dirs_Directory in Hq.
    apply well_named_Directory in Hnamed. destruct Hnamed as [_ Hnamed].
    induction es as [|[name|name content] es IHes].
    + contradiction.
    + now apply IHes.
    + cbn [walk_dirs_each well_named_each] in Hq, Hnamed.
      destruct Hnamed as [Hhere Hrest].
      destruct (IsHidden name) eqn:Hvis; [now apply IHes|].
      destruct (Hhere eq_refl) as [Hname Hcontent].
      destruct (Join_elements r name Hname) as [_ Hel].
      apply in_app_or in Hq. destruct Hq as [[<-|Hq]|Hq].
      * exists [], name. exact Hel.
      * destruct (IH content _ _ Hcontent Hq) as [xs [d Hd]].
        exists (xs ++ [d]), name. rewrite Hd, Hel, <- app_assoc. reflexivity.
      * now apply IHes.
Qed.

Lemma walk_dirs_each_elements (es : list entry) (r q : string) :
  well_named_each es -> In q (walk_dirs_each r es) ->
  exists xs d, In d (listed_subdirs es) /\ elements q = xs ++ d :: elements r.
Proof.
  induction es as [|[name|name content] es IH]; intros Hnamed Hq.
  - contradiction.
  - now apply IH.
  - cbn [walk_dirs_each well_named_each listed_subdirs] in *.
    destruct Hnamed as [Hhere Hrest].
    destruct (IsHidden name) eqn:Hvis; [now apply IH|].
    destruct (Hhere eq_refl) as [Hname Hcontent].
    destruct (Join_elements r name Hname) as [_ Hel].
    apply in_app_or in Hq. destruct Hq as [[<-|Hq]|Hq].
    + exists [], name. split; [now left | exact Hel].
    + destruct (walk_dirs_elements content _ _ Hcontent Hq) as [xs [d Hd]].
      exists (xs ++ [d]), name. split; [now left|].
      rewrite Hd, Hel, <- app_assoc. reflexivity.
    + destruct (IH Hrest Hq) as [xs [d [Hin Hd]]].
      exists xs, d. split; [now right | exact Hd].
Qed.

Lemma walk_dirs_NoDup (t : tree) :
  forall r, well_named t -> NoDup (walk_dirs t r).
Proof.
  revert t. fix IH 1. intros [err|es] r Hnamed.
  - constructor.
  - rewrite walk_dirs_Directory.
    apply well_named_Directory in Hnamed. destruct Hnamed as [Hdistinct Hnamed].
    induction es as [|[name|name content] es IHes].
    + constructor.
    + now apply IHes.
    + cbn [walk_dirs_each well_named_each listed_subdirs] in *.
      destruct Hnamed as [Hhere Hrest].
      destruct (IsHidden name) eqn:Hvis; [now apply IHes|].
      destruct (Hhere eq_refl) as [Hname Hcontent].
      destruct (Join_elements r name Hname) as [_ Hel].
      apply NoDup_cons_iff in Hdistinct. destruct Hdistinct as [Hfresh Hdistinct].
      specialize (IHes Hdistinct Hrest).
      assert (Hblock : forall q,
                 In q (path.Join r name :: walk_dirs content (path.Join r name)) ->
                 exists xs, elements q = xs ++ name :: elements r).
      { intros q [<-|Hq]; [now exists []|].
        destruct (walk_dirs_elements content _ _ Hcontent Hq) as [xs [d Hd]].
        exists (xs ++ [d]). rewrite Hd, Hel, <- app_assoc. reflexivity. }
      assert (Hapart : forall q,
                 In q (path.Join r name :: walk_dirs content (path.Join r name)) ->
                 ~ In q (walk_dirs_each r es)).
      { intros q Hq Hq'. destruct (Hblock q Hq) as [xs Hxs].
        destruct (walk_dirs_each_elements es r q Hrest Hq')
          as [ys [d [Hd Hys]]].
        rewrite Hxs in Hys. apply same_tail_same_name in Hys. now subst d. }
      cbn [app]. constructor.
      * intros Hin. apply in_app_or in Hin. destruct Hin as [Hin|Hin].
        -- destruct (walk_dirs_elements content _ _ Hcontent Hin)
             as [xs [d Hd]].
           apply (f_equal (@length string)) in Hd.
           rewrite length_app in Hd. cbn [length] in Hd. lia.
        -- exact (Hapart _ (or_introl eq_refl) Hin).
      * assert (Hsub : NoDup (walk_dirs content (path.Join r name)))
          by exact (IH content _ Hcontent).
        clear IH.
        induction (walk_dirs content (path.Join r name)) as [|q l IHl].
        -- exact IHes.
        -- cbn [app]. inversion Hsub as [|? ? Hq Hl]; subst. constructor.
           ++ intros Hin. apply in_app_or in Hin. destruct Hin as [Hin|Hin].
              ** now apply Hq.
              ** apply (Hapart q); [right; now left | exact Hin].
           ++ apply IHl; trivial.
              --- intros q' [<-|Hq']; apply Hblock; [now left | right; now right].
              --- intros q' [<-|Hq']; apply Hapart; [now left | right; now right].
Qed.

Lemma example_tree_well_named : well_named example_tree.
Proof.
  cbn.
  repeat first [ split | discriminate | reflexivity | exact I | intros []
               | intros _ | constructor ].
Qed.

(** On a finite tree whose directories have names that directory entries
    can have, no two of them the same in one directory, every directory is
    listed once: the directory result of [Explore] holds no path twice,
    whatever the root. *)
Theorem Explore_lists_each_directory_once
  (ReadDir : string -> os.result (list os.FileInfo))
  (t : tree) (root : string) (frames : nat) :
  mounted ReadDir t root ->
  well_named t ->
  levels t <= frames ->
  exists dirs files,
    Explore ReadDir frames root = Some (dirs, files) /\ NoDup dirs.
Proof.
  intros Hm Hnamed Hlevels.
  exists (walk_dirs t root), (walk_files t). split.
  - now apply Explore_walks.
  - now apply walk_dirs_NoDup.
Qed.

Lemma Explore_lists_each_directory_once_witness :
  exists dirs files,
    Explore (example_fs ".") 3 "." = Some (dirs, files) /\ NoDup dirs.
Proof.
  apply (Explore_lists_each_directory_once (example_fs ".") example_tree).
  - exact example_tree_mounted.
  - exact example_tree_well_named.
  - cbn. lia.
Defined.

(** *** The paths listed, written out *)

Lemma concat_snoc (x : string) (l : list string) (d : string) :
  String.concat "/" ((x :: l) ++ [d])
  = String.append (String.concat "/" (x :: l)) (String.append "/" d).
Proof.
  revert x.
  induction l as [|y l IH]; intros x; [reflexivity|].
  change (String.concat "/" ((x :: y :: l) ++ [d]))
    with (String.append x (String.append "/"
            (String.concat "/" ((y :: l) ++ [d])))).
  change (String.concat "/" (x :: y :: l))
    with (String.append x (String.append "/" (String.concat "/" (y :: l)))).
  now rewrite IH, !append_assoc.
Qed.

Lemma render_cons (b : bool) (d : string) (kept : list string) :
  kept <> [] ->
  render b (d :: kept)
  = String.append (render b kept) (String.append "/" d).
Proof.
  intros Hne. unfold render. cbn [rev].
  destruct (rev kept) as [|x l] eqn:Hrev.
  - apply (f_equal (@rev string)) in Hrev.
    rewrite rev_involutive in Hrev. now elim Hne.
  - rewrite concat_snoc. destruct b; [now rewrite append_assoc | reflexivity].
Qed.

Lemma Clean_render_all (p : string) :
  path.Clean p = render (rooted p) (elements p).
Proof.
  destruct p as [|c p]; [reflexivity | now apply Clean_render].
Qed.

Lemma render_not_bare (b : bool) (kept : list string) :
  tidy b kept -> kept <> [] ->
  render b kept <> "." /\ render b kept <> "/".
Proof.
  intros Htidy Hne.
  destruct (render_rooted_elements b kept Htidy (fun _ => Hne)) as [_ Hel].
  split; intros Heq; rewrite Heq in Hel; cbn in Hel; now elim Hne.
Qed.

Lemma prefix_of_render (p : string) :
  p <> "." -> p <> "/" -> path.Clean p = p ->
  prefix_of p = String.append p "/".
Proof.
  intros H1 H2 Hclean. unfold prefix_of. rewrite Hclean.
  apply String.eqb_neq in H1, H2. now rewrite H1, H2.
Qed.

(** [path.Join] of a path and a name is the name after the prefix of the
    path, and prefixes in turn what is joined to it. *)
Lemma Join_prefix (r d : string) :
  listable d ->
  path.Join r d = String.append (prefix_of r) d
  /\ prefix_of (path.Join r d)
     = String.append (prefix_of r) (String.append d "/").
Proof.
  intros Hd.
  pose proof (elements_tidy r) as Htidy.
  pose proof (listable_tidy _ d _ Hd Htidy) as Htop.
  assert (Hjoin : path.Join r d = String.append (prefix_of r) d).
  { rewrite (Join_render r d Hd). unfold prefix_of.
    rewrite (Clean_render_all r).
    destruct (elements r) as [|top below] eqn:Hel.
    - destruct (rooted r); reflexivity.
    - rewrite render_cons by discriminate.
      destruct (render_not_bare (rooted r) (top :: below) Htidy)
        as [H1 H2]; [discriminate|].
      apply String.eqb_neq in H1, H2. rewrite H1, H2.
      now rewrite append_assoc. }
  split; [exact Hjoin|].
  rewrite <- append_assoc, <- Hjoin.
  rewrite (Join_render r d Hd).
  destruct (render_not_bare (rooted r) (d :: elements r) Htop) as [H1 H2];
    [discriminate|].
  apply prefix_of_render; trivial.
  rewrite Clean_render_all.
  destruct (render_rooted_elements (rooted r) (d :: elements r) Htop)
    as [Hroot Hel]; [discriminate|].
  now rewrite Hroot, Hel.
Qed.

Lemma prefixed_dirs_Directory (es : list entry) (prefix : string) :
  prefixed_dirs (Directory es) prefix = prefixed_dirs_each prefix es.
Proof.
  cbn [prefixed_dirs].
  induction es as [|[name|name content] es IH]; cbn [prefixed_dirs_each].
  - reflexivity.
  - exact IH.
  - now rewrite IH.
Qed.

Lemma walk_dirs_prefixed (t : tree) :
  forall r, well_named t -> walk_dirs t r = prefixed_dirs t (prefix_of r).
Proof.
  revert t. fix IH 1. intros [err|es] r Hnamed.
  - reflexivity.
  - rewrite walk_dirs_Directory, prefixed_dirs_Directory.
    apply well_named_Directory in Hnamed. destruct Hnamed as [_ Hnamed].
    induction es as [|[name|name content] es IHes].
    + reflexivity.
    + now apply IHes.
    + cbn [walk_dirs_each prefixed_dirs_each well_named_each] in *.
      destruct Hnamed as [Hhere Hrest].
      destruct (IsHidden name) eqn:Hvis; [now apply IHes|].
      destruct (Hhere eq_refl) as [Hname Hcontent].
      destruct (Join_prefix r name Hname) as [Hjoin Hprefix].
      rewrite (IH content _ Hcontent), Hprefix, Hjoin, (IHes Hrest).
      reflexivity.
Qed.

(** On a finite tree whose directories have names that directory entries
    can have, the directory result of [Explore] holds, for each directory
    walked, the names on the way to it from the root separated by slashes,
    after a prefix made of the cleaned root: nothing for a root that cleans
    to [.] (so the paths are relative to the root), the slash alone for
    the root [/], and else the cleaned root and a slash.  The file result
    holds bare names whatever the root. *)
Theorem Explore_directory_paths
  (ReadDir : string -> os.result (list os.FileInfo))
  (t : tree) (root : string) (frames : nat) :
  mounted ReadDir t root ->
  well_named t ->
  levels t <= frames ->
  Explore ReadDir frames root
  = Some (prefixed_dirs t (prefix_of root), walk_files t).
Proof.
  intros Hm Hnamed Hlevels.
  rewrite (Explore_walks ReadDir frames t root Hm Hlevels).
  now rewrite (walk_dirs_prefixed t root Hnamed).
Qed.

Lemma example_tree_mounted_elsewhere :
  mounted (example_fs "/srv/www") example_tree "/srv/www".
Proof.
  cbn [mounted example_tree map info].
  repeat first [split | reflexivity | exact I].
Qed.

Lemma Explore_directory_paths_witness :
  Explore (example_fs ".") 3 "." = Some (["a"; "a/b"], ["f1"; "f2"])
  /\ Explore (example_fs "/srv/www") 3 "/srv/www"
     = Some (["/srv/www/a"; "/srv/www/a/b"], ["f1"; "f2"]).
Proof.
  split.
  - apply (Explore_directory_paths (example_fs ".") example_tree "." 3).
    + exact example_tree_mounted.
    + exact example_tree_well_named.
    + cbn. lia.
  - apply (Explore_directory_paths (example_fs "/srv/www") example_tree
             "/srv/www" 3).
    + exact example_tree_mounted_elsewhere.
    + exact example_tree_well_named.
    + cbn. lia.
Defined.

(** ** More on [IsHidden] *)

(** [IsHidden] reads the first byte of its argument only: what follows a
    string that is not empty does not change the answer.  So for a path
    with a directory part it answers for the first element of the path, not
    for the name of the file. *)
Theorem IsHidden_reads_the_first_byte (p q : string) :
  p <> "" -> IsHidden (String.append p q) = IsHidden p.
Proof.
  destruct p as [|c p]; [intros H; now elim H|].
  intros _. cbn [String.append]. now rewrite !IsHidden_String.
Qed.

Lemma IsHidden_reads_the_first_byte_witness :
  IsHidden "docs/.draft" = false /\ IsHidden "./notes" = true.
Proof.
  split.
  - transitivity (IsHidden "docs"); [|reflexivity].
    apply (IsHidden_reads_the_first_byte "docs" "/.draft"). discriminate.
  - transitivity (IsHidden "."); [|reflexivity].
    apply (IsHidden_reads_the_first_byte "." "/notes"). discriminate.
Defined.
